(** * Peer-state tracking of the consensus reactor (consensus/reactor.go),
    the transaction event buffer (package types, TxEventBuffer) and
    BroadcastTxCommit (rpc/core/mempool.go).

    Go pointers to [cmn.BitArray] are locations in an explicit heap, so that
    the aliasing the code relies on ([CatchupCommit = Precommits]) and the
    sharing of a [GetRoundState] snapshot are visible in the model. *)

From Stdlib Require Import ZArith List String Ascii Bool DecimalString.
From stdpp Require Import base gmap list.
Import ListNotations.
Open Scope Z_scope.

(* ------------------------------------------------------------------ *)
(** ** Outcomes of Go code that may panic *)

Inductive outcome (A : Type) : Type :=
| Done (a : A)
| Panicked (why : string).
Arguments Done {A} a.
Arguments Panicked {A} why.

(* ------------------------------------------------------------------ *)
(** ** Round steps and [CompareHRS] *)

(** Modelled from the spec: [RoundStepType] (a uint8) and [CompareHRS] live
    in consensus/state.go, which is not under src/.  The steps are ordered
    as the spec's Step list (NewHeight first, Commit last) and [CompareHRS]
    compares (Height, Round, Step) lexicographically, returning -1, 0 or 1. *)
Definition RoundStepType := Z.
Definition RoundStepNewHeight     : RoundStepType := 1.
Definition RoundStepNewRound      : RoundStepType := 2.
Definition RoundStepPropose       : RoundStepType := 3.
Definition RoundStepPrevote       : RoundStepType := 4.
Definition RoundStepPrevoteWait   : RoundStepType := 5.
Definition RoundStepPrecommit     : RoundStepType := 6.
Definition RoundStepPrecommitWait : RoundStepType := 7.
Definition RoundStepCommit        : RoundStepType := 8.

Definition CompareHRS (h1 r1 : Z) (s1 : RoundStepType)
                      (h2 r2 : Z) (s2 : RoundStepType) : Z :=
  if h1 <? h2 then -1 else if h2 <? h1 then 1 else
  if r1 <? r2 then -1 else if r2 <? r1 then 1 else
  if s1 <? s2 then -1 else if s2 <? s1 then 1 else 0.

(** Lexicographic order on (Height, Round, Step). *)
Definition hrs_le (h1 r1 s1 h2 r2 s2 : Z) : Prop :=
  h1 < h2 \/ (h1 = h2 /\ (r1 < r2 \/ (r1 = r2 /\ s1 <= s2))).

(* ------------------------------------------------------------------ *)
(** ** Vote types (types/vote.go) *)

Definition VoteTypePrevote : Z := 1.
Definition VoteTypePrecommit : Z := 2.
Definition IsVoteTypeValid (type_ : Z) : bool :=
  (type_ =? VoteTypePrevote) || (type_ =? VoteTypePrecommit).

(* ------------------------------------------------------------------ *)
(** ** Bit arrays and the heap they live in *)

(** [cmn.BitArray]: [Bits] bits stored as booleans (the Go code packs them
    in uint64 words). *)
Record BitArray := mkBitArray { Bits : Z; Elems : list bool }.

Definition loc := positive.
(** A [*cmn.BitArray]: [None] is nil. *)
Definition ptr := option loc.
Abbreviation heap := (gmap loc BitArray).

(** [cmn.NewBitArray(bits)]: nil when [bits <= 0], otherwise a freshly
    allocated array of [bits] cleared bits. *)
Definition NewBitArray (bits : Z) (h : heap) : ptr * heap :=
  if bits <=? 0 then (None, h)
  else let l := fresh (dom h) in
       (Some l, <[l := mkBitArray bits (repeat false (Z.to_nat bits))]> h).

(** [bA.SetIndex(i, true)]: no effect on nil or when [i >= Bits].
    Validator indices are non-negative, hence [i : nat]. *)
Definition SetIndex (p : ptr) (i : nat) (h : heap) : heap :=
  match p with
  | None => h
  | Some l =>
      match h !! l with
      | None => h
      | Some ba =>
          if Bits ba <=? Z.of_nat i then h
          else <[l := mkBitArray (Bits ba) (<[i := true]> (Elems ba))]> h
      end
  end.

(** Bit [i] of the array behind [p], as [GetIndex] reads it. *)
Definition GetIndex (p : ptr) (i : nat) (h : heap) : bool :=
  match p with
  | None => false
  | Some l =>
      match h !! l with
      | None => false
      | Some ba => if Bits ba <=? Z.of_nat i then false
                   else default false (Elems ba !! i)
      end
  end.

(* ------------------------------------------------------------------ *)
(** ** PeerRoundState and PeerState *)

Record PartSetHeader := mkPartSetHeader { Total : Z; Hash : list Byte.byte }.
Definition EmptyPartSetHeader := mkPartSetHeader 0 [].

Record PeerRoundState := mkPRS {
  Height : Z;
  Round : Z;
  Step : RoundStepType;
  StartTime : Z;
  Proposal : bool;
  ProposalBlockPartsHeader : PartSetHeader;
  ProposalBlockParts : ptr;
  ProposalPOLRound : Z;
  ProposalPOL : ptr;
  Prevotes : ptr;
  Precommits : ptr;
  LastCommitRound : Z;
  LastCommit : ptr;
  CatchupCommitRound : Z;
  CatchupCommit : ptr
}.

(** The [PeerState] with its embedded [PeerRoundState] and the heap that
    holds the bit-arrays its pointers refer to. *)
Record PeerState := mkPeerState { prs : PeerRoundState; mem : heap }.

(** [NewPeerState]. *)
Definition NewPeerState : PeerState :=
  mkPeerState (mkPRS 0 (-1) 0 0 false EmptyPartSetHeader None (-1) None
                     None None (-1) None (-1) None) ∅.

(** Field assignments [ps.F = v]. *)
Section Setters.
Variable p : PeerRoundState.
Definition set_Height v := mkPRS v (Round p) (Step p) (StartTime p) (Proposal p) (ProposalBlockPartsHeader p) (ProposalBlockParts p) (ProposalPOLRound p) (ProposalPOL p) (Prevotes p) (Precommits p) (LastCommitRound p) (LastCommit p) (CatchupCommitRound p) (CatchupCommit p).
Definition set_Round v := mkPRS (Height p) v (Step p) (StartTime p) (Proposal p) (ProposalBlockPartsHeader p) (ProposalBlockParts p) (ProposalPOLRound p) (ProposalPOL p) (Prevotes p) (Precommits p) (LastCommitRound p) (LastCommit p) (CatchupCommitRound p) (CatchupCommit p).
Definition set_Step v := mkPRS (Height p) (Round p) v (StartTime p) (Proposal p) (ProposalBlockPartsHeader p) (ProposalBlockParts p) (ProposalPOLRound p) (ProposalPOL p) (Prevotes p) (Precommits p) (LastCommitRound p) (LastCommit p) (CatchupCommitRound p) (CatchupCommit p).
Definition set_StartTime v := mkPRS (Height p) (Round p) (Step p) v (Proposal p) (ProposalBlockPartsHeader p) (ProposalBlockParts p) (ProposalPOLRound p) (ProposalPOL p) (Prevotes p) (Precommits p) (LastCommitRound p) (LastCommit p) (CatchupCommitRound p) (CatchupCommit p).
Definition set_Proposal v := mkPRS (Height p) (Round p) (Step p) (StartTime p) v (ProposalBlockPartsHeader p) (ProposalBlockParts p) (ProposalPOLRound p) (ProposalPOL p) (Prevotes p) (Precommits p) (LastCommitRound p) (LastCommit p) (CatchupCommitRound p) (CatchupCommit p).
Definition set_ProposalBlockPartsHeader v := mkPRS (Height p) (Round p) (Step p) (StartTime p) (Proposal p) v (ProposalBlockParts p) (ProposalPOLRound p) (ProposalPOL p) (Prevotes p) (Precommits p) (LastCommitRound p) (LastCommit p) (CatchupCommitRound p) (CatchupCommit p).
Definition set_ProposalBlockParts v := mkPRS (Height p) (Round p) (Step p) (StartTime p) (Proposal p) (ProposalBlockPartsHeader p) v (ProposalPOLRound p) (ProposalPOL p) (Prevotes p) (Precommits p) (LastCommitRound p) (LastCommit p) (CatchupCommitRound p) (CatchupCommit p).
Definition set_ProposalPOLRound v := mkPRS (Height p) (Round p) (Step p) (StartTime p) (Proposal p) (ProposalBlockPartsHeader p) (ProposalBlockParts p) v (ProposalPOL p) (Prevotes p) (Precommits p) (LastCommitRound p) (LastCommit p) (CatchupCommitRound p) (CatchupCommit p).
Definition set_ProposalPOL v := mkPRS (Height p) (Round p) (Step p) (StartTime p) (Proposal p) (ProposalBlockPartsHeader p) (ProposalBlockParts p) (ProposalPOLRound p) v (Prevotes p) (Precommits p) (LastCommitRound p) (LastCommit p) (CatchupCommitRound p) (CatchupCommit p).
Definition set_Prevotes v := mkPRS (Height p) (Round p) (Step p) (StartTime p) (Proposal p) (ProposalBlockPartsHeader p) (ProposalBlockParts p) (ProposalPOLRound p) (ProposalPOL p) v (Precommits p) (LastCommitRound p) (LastCommit p) (CatchupCommitRound p) (CatchupCommit p).
Definition set_Precommits v := mkPRS (Height p) (Round p) (Step p) (StartTime p) (Proposal p) (ProposalBlockPartsHeader p) (ProposalBlockParts p) (ProposalPOLRound p) (ProposalPOL p) (Prevotes p) v (LastCommitRound p) (LastCommit p) (CatchupCommitRound p) (CatchupCommit p).
Definition set_LastCommitRound v := mkPRS (Height p) (Round p) (Step p) (StartTime p) (Proposal p) (ProposalBlockPartsHeader p) (ProposalBlockParts p) (ProposalPOLRound p) (ProposalPOL p) (Prevotes p) (Precommits p) v (LastCommit p) (CatchupCommitRound p) (CatchupCommit p).
Definition set_LastCommit v := mkPRS (Height p) (Round p) (Step p) (StartTime p) (Proposal p) (ProposalBlockPartsHeader p) (ProposalBlockParts p) (ProposalPOLRound p) (ProposalPOL p) (Prevotes p) (Precommits p) (LastCommitRound p) v (CatchupCommitRound p) (CatchupCommit p).
Definition set_CatchupCommitRound v := mkPRS (Height p) (Round p) (Step p) (StartTime p) (Proposal p) (ProposalBlockPartsHeader p) (ProposalBlockParts p) (ProposalPOLRound p) (ProposalPOL p) (Prevotes p) (Precommits p) (LastCommitRound p) (LastCommit p) v (CatchupCommit p).
Definition set_CatchupCommit v := mkPRS (Height p) (Round p) (Step p) (StartTime p) (Proposal p) (ProposalBlockPartsHeader p) (ProposalBlockParts p) (ProposalPOLRound p) (ProposalPOL p) (Prevotes p) (Precommits p) (LastCommitRound p) (LastCommit p) (CatchupCommitRound p) v.
End Setters.

(** [GetRoundState]: [prs := ps.PeerRoundState // copy; return &prs].  The
    copy is of the struct; its pointer fields still refer to the heap. *)
Definition GetRoundState (st : PeerState) : PeerRoundState := prs st.

(** What a holder of a [GetRoundState] result can do with it: assign fields
    of the copy, or call [SetIndex] on one of its bit-array fields. *)
Inductive SnapshotOp :=
| OpAssign (f : PeerRoundState -> PeerRoundState)
| OpSetIndex (field : PeerRoundState -> ptr) (i : nat).

Fixpoint run_snapshot_ops (ops : list SnapshotOp) (snap : PeerRoundState) (h : heap)
    : PeerRoundState * heap :=
  match ops with
  | [] => (snap, h)
  | OpAssign f :: ops => run_snapshot_ops ops (f snap) h
  | OpSetIndex field i :: ops => run_snapshot_ops ops snap (SetIndex (field snap) i h)
  end.

(** The peer state after a reader took a snapshot and ran [ops] on it. *)
Definition mutate_snapshot (st : PeerState) (ops : list SnapshotOp) : PeerState :=
  let '(_, h) := run_snapshot_ops ops (GetRoundState st) (mem st) in
  mkPeerState (prs st) h.

Definition with_prs (st : PeerState) (p : PeerRoundState) : PeerState :=
  mkPeerState p (mem st).

(* ------------------------------------------------------------------ *)
(** ** Vote routing: [getVoteBitArray], [setHasVote] *)

(** A Go [switch type_ { case Prevote: return a; case Precommit: return b }]:
    [Some r] when a case returns [r], [None] when control falls through. *)
Definition vote_switch (type_ : Z) (a b : ptr) : option ptr :=
  if type_ =? VoteTypePrevote then Some a
  else if type_ =? VoteTypePrecommit then Some b
  else None.

Definition getVoteBitArray (ps : PeerRoundState) (height round type_ : Z)
    : outcome ptr :=
  if negb (IsVoteTypeValid type_) then Panicked "Invalid vote type" else
  Done
    (if Height ps =? height then
       match (if Round ps =? round
              then vote_switch type_ (Prevotes ps) (Precommits ps) else None) with
       | Some r => r
       | None =>
       match (if CatchupCommitRound ps =? round
              then vote_switch type_ None (CatchupCommit ps) else None) with
       | Some r => r
       | None =>
       match (if ProposalPOLRound ps =? round
              then vote_switch type_ (ProposalPOL ps) None else None) with
       | Some r => r
       | None => None
       end end end
     else if Height ps =? height + 1 then
       match (if LastCommitRound ps =? round
              then vote_switch type_ None (LastCommit ps) else None) with
       | Some r => r
       | None => None
       end
     else None).

(** [setHasVote]: [ps.getVoteBitArray(height, round, type_).SetIndex(index, true)]. *)
Definition setHasVote (height round type_ : Z) (index : nat) (st : PeerState)
    : outcome PeerState :=
  match getVoteBitArray (prs st) height round type_ with
  | Panicked why => Panicked why
  | Done p => Done (mkPeerState (prs st) (SetIndex p index (mem st)))
  end.

Record Vote := mkVote {
  vote_Height : Z; vote_Round : Z; vote_Type : Z; vote_ValidatorIndex : nat }.

(** [SetHasVote(vote)]. *)
Definition SetHasVote (vote : Vote) (st : PeerState) : outcome PeerState :=
  setHasVote (vote_Height vote) (vote_Round vote) (vote_Type vote)
             (vote_ValidatorIndex vote) st.

(* ------------------------------------------------------------------ *)
(** ** Lazily allocated bit-arrays *)

Definition ensureCatchupCommitRound (height round numValidators : Z)
    (st : PeerState) : PeerState :=
  let ps := prs st in
  if negb (Height ps =? height) then st
  else if CatchupCommitRound ps =? round then st   (* Nothing to do! *)
  else
    let ps := set_CatchupCommitRound ps round in
    if round =? Round ps then with_prs st (set_CatchupCommit ps (Precommits ps))
    else let '(p, h) := NewBitArray numValidators (mem st) in
         mkPeerState (set_CatchupCommit ps p) h.

(** [if ps.F == nil { ps.F = cmn.NewBitArray(numValidators) }]. *)
Definition ensure_field (get : PeerRoundState -> ptr)
    (set : PeerRoundState -> ptr -> PeerRoundState) (numValidators : Z)
    (st : PeerState) : PeerState :=
  match get (prs st) with
  | Some _ => st
  | None => let '(p, h) := NewBitArray numValidators (mem st) in
            mkPeerState (set (prs st) p) h
  end.

Definition ensureVoteBitArrays (height numValidators : Z) (st : PeerState)
    : PeerState :=
  if Height (prs st) =? height then
    let st := ensure_field Prevotes set_Prevotes numValidators st in
    let st := ensure_field Precommits set_Precommits numValidators st in
    let st := ensure_field CatchupCommit set_CatchupCommit numValidators st in
    ensure_field ProposalPOL set_ProposalPOL numValidators st
  else if Height (prs st) =? height + 1 then
    ensure_field LastCommit set_LastCommit numValidators st
  else st.

(* ------------------------------------------------------------------ *)
(** ** [PickVoteToSend] *)

(** The [types.VoteSetReader] a vote is picked from. *)
Record VoteSetReader := mkVoteSetReader {
  vs_Height : Z;
  vs_Round : Z;
  vs_Type : Z;
  vs_Size : Z;
  vs_IsCommit : bool;
  vs_BitArray : BitArray;
  vs_GetByIndex : nat -> option Vote
}.

Section PickVote.
(** [votes.BitArray().Sub(psVotes).PickRandom()]: a random index among the
    votes we have and the peer lacks, chosen by the environment. *)
Variable pickRandomSub : BitArray -> BitArray -> option nat.

Definition PickVoteToSend (votes : VoteSetReader) (st : PeerState)
    : outcome (option Vote * bool * PeerState) :=
  if vs_Size votes =? 0 then Done (None, false, st) else
  let '(height, round, type_, size) :=
    (vs_Height votes, vs_Round votes, vs_Type votes, vs_Size votes) in
  let st := if vs_IsCommit votes
            then ensureCatchupCommitRound height round size st else st in
  let st := ensureVoteBitArrays height size st in
  match getVoteBitArray (prs st) height round type_ with
  | Panicked why => Panicked why
  | Done None => Done (None, false, st)   (* Not something worth sending *)
  | Done (Some l) =>
      let psVotes := default (mkBitArray 0 []) (mem st !! l) in
      match pickRandomSub (vs_BitArray votes) psVotes with
      | Some index =>
          match setHasVote height round type_ index st with
          | Panicked why => Panicked why
          | Done st => Done (vs_GetByIndex votes index, true, st)
          end
      | None => Done (None, false, st)
      end
  end.
End PickVote.

(* ------------------------------------------------------------------ *)
(** ** State-channel and data-channel updates of the peer state *)

Module NRS.
(** [NewRoundStepMessage]. *)
Record t := mk {
  Height : Z; Round : Z; Step : RoundStepType;
  SecondsSinceStartTime : Z; LastCommitRound : Z }.
End NRS.

(** Go's [int64] arithmetic: the result of an operation is taken modulo
    [2^64] into the range [-2^63, 2^63). *)
Definition wrap64 (z : Z) : Z := (z + 2 ^ 63) mod 2 ^ 64 - 2 ^ 63.

(** [time.Second] as a [time.Duration], which counts nanoseconds. *)
Definition Second : Z := 1000000000.

(** [ApplyNewRoundStepMessage]; [now] is [time.Now()] in nanoseconds and
    [StartTime] is kept in nanoseconds as well.  The offset
    [-1 * time.Duration(msg.SecondsSinceStartTime) * time.Second] is an
    [int64] product, so both multiplications wrap; [Time.Add] itself adds
    the resulting duration exactly. *)
Definition ApplyNewRoundStepMessage (now : Z) (msg : NRS.t) (st : PeerState)
    : PeerState :=
  let ps := prs st in
  (* Ignore duplicates or decreases *)
  if CompareHRS (NRS.Height msg) (NRS.Round msg) (NRS.Step msg)
                (Height ps) (Round ps) (Step ps) <=? 0 then st else
  let psHeight := Height ps in
  let psRound := Round ps in
  let psCatchupCommitRound := CatchupCommitRound ps in
  let psCatchupCommit := CatchupCommit ps in
  let startTime :=
    now + wrap64 (wrap64 (-1 * NRS.SecondsSinceStartTime msg) * Second) in
  let ps := set_Height ps (NRS.Height msg) in
  let ps := set_Round ps (NRS.Round msg) in
  let ps := set_Step ps (NRS.Step msg) in
  let ps := set_StartTime ps startTime in
  let ps :=
    if negb (psHeight =? NRS.Height msg) || negb (psRound =? NRS.Round msg) then
      let ps := set_Proposal ps false in
      let ps := set_ProposalBlockPartsHeader ps EmptyPartSetHeader in
      let ps := set_ProposalBlockParts ps None in
      let ps := set_ProposalPOLRound ps (-1) in
      let ps := set_ProposalPOL ps None in
      let ps := set_Prevotes ps None in
      set_Precommits ps None
    else ps in
  let ps :=
    if (psHeight =? NRS.Height msg) && negb (psRound =? NRS.Round msg)
       && (NRS.Round msg =? psCatchupCommitRound)
    then set_Precommits ps psCatchupCommit  (* Preserve psCatchupCommit! *)
    else ps in
  let ps :=
    if negb (psHeight =? NRS.Height msg) then
      (* Shift Precommits to LastCommit. *)
      let ps :=
        if (psHeight + 1 =? NRS.Height msg) && (psRound =? NRS.LastCommitRound msg)
        then set_LastCommit (set_LastCommitRound ps (NRS.LastCommitRound msg))
                            (Precommits ps)
        else set_LastCommit (set_LastCommitRound ps (NRS.LastCommitRound msg))
                            None in
      set_CatchupCommit (set_CatchupCommitRound ps (-1)) None
    else ps in
  with_prs st ps.

(** A bit-array carried by a decoded message: a fresh heap object. *)
Definition alloc (b : option BitArray) (h : heap) : ptr * heap :=
  match b with
  | None => (None, h)
  | Some ba => let l := fresh (dom h) in (Some l, <[l := ba]> h)
  end.

(** [ApplyCommitStepMessage]. *)
Definition ApplyCommitStepMessage (height : Z) (hdr : PartSetHeader)
    (parts : option BitArray) (st : PeerState) : PeerState :=
  if negb (Height (prs st) =? height) then st else
  let '(p, h) := alloc parts (mem st) in
  mkPeerState (set_ProposalBlockParts (set_ProposalBlockPartsHeader (prs st) hdr) p) h.

(** [ApplyHasVoteMessage]. *)
Definition ApplyHasVoteMessage (height round type_ : Z) (index : nat)
    (st : PeerState) : outcome PeerState :=
  if negb (Height (prs st) =? height) then Done st
  else setHasVote height round type_ index st.

(** [ApplyProposalPOLMessage]. *)
Definition ApplyProposalPOLMessage (height polRound : Z) (pol : option BitArray)
    (st : PeerState) : PeerState :=
  if negb (Height (prs st) =? height) then st
  else if negb (ProposalPOLRound (prs st) =? polRound) then st
  else let '(p, h) := alloc pol (mem st) in
       mkPeerState (set_ProposalPOL (prs st) p) h.

(** [SetHasProposal]. *)
Definition SetHasProposal (height round : Z) (hdr : PartSetHeader) (polRound : Z)
    (st : PeerState) : PeerState :=
  let ps := prs st in
  if negb (Height ps =? height) || negb (Round ps =? round) then st
  else if Proposal ps then st
  else
    let '(p, h) := NewBitArray (Total hdr) (mem st) in
    let ps := set_Proposal ps true in
    let ps := set_ProposalBlockPartsHeader ps hdr in
    let ps := set_ProposalBlockParts ps p in
    let ps := set_ProposalPOLRound ps polRound in
    mkPeerState (set_ProposalPOL ps None) h.

(** [SetHasProposalBlockPart]. *)
Definition SetHasProposalBlockPart (height round : Z) (index : nat)
    (st : PeerState) : PeerState :=
  if negb (Height (prs st) =? height) || negb (Round (prs st) =? round) then st
  else mkPeerState (prs st) (SetIndex (ProposalBlockParts (prs st)) index (mem st)).

(** The messages [Receive] applies to a peer's state (state, data and vote
    channels).  [VoteSetMaj23] and [ProposalHeartbeat] leave it untouched. *)
Inductive PeerMsg :=
| MsgNewRoundStep (now : Z) (m : NRS.t)
| MsgCommitStep (height : Z) (hdr : PartSetHeader) (parts : option BitArray)
| MsgHasVote (height round type_ : Z) (index : nat)
| MsgVoteSetMaj23 (height round type_ : Z)
| MsgProposalHeartbeat
| MsgProposal (height round : Z) (hdr : PartSetHeader) (polRound : Z)
| MsgProposalPOL (height polRound : Z) (pol : option BitArray)
| MsgBlockPart (height round : Z) (index : nat)
| MsgVote (vote : Vote) (csHeight valSize lastCommitSize : Z).

Definition apply_msg (m : PeerMsg) (st : PeerState) : outcome PeerState :=
  match m with
  | MsgNewRoundStep now msg => Done (ApplyNewRoundStepMessage now msg st)
  | MsgCommitStep h hdr parts => Done (ApplyCommitStepMessage h hdr parts st)
  | MsgHasVote h r t i => ApplyHasVoteMessage h r t i st
  | MsgVoteSetMaj23 _ _ _ => Done st
  | MsgProposalHeartbeat => Done st
  | MsgProposal h r hdr pol => Done (SetHasProposal h r hdr pol st)
  | MsgProposalPOL h r pol => Done (ApplyProposalPOLMessage h r pol st)
  | MsgBlockPart h r i => Done (SetHasProposalBlockPart h r i st)
  | MsgVote v height valSize lastCommitSize =>
      let st := ensureVoteBitArrays height valSize st in
      let st := ensureVoteBitArrays (height - 1) lastCommitSize st in
      SetHasVote v st
  end.

(** Applying messages in order; a panic stops the process. *)
Fixpoint apply_msgs (ms : list PeerMsg) (st : PeerState) : outcome PeerState :=
  match ms with
  | [] => Done st
  | m :: ms => match apply_msg m st with
               | Done st => apply_msgs ms st
               | Panicked why => Panicked why
               end
  end.

(* ------------------------------------------------------------------ *)
(** ** [DecodeMessage] *)

Definition maxConsensusMessageSize : Z := 1048576. (* 1MB *)

Definition msgTypeNewRoundStep := Byte.x01.
Definition msgTypeCommitStep   := Byte.x02.
Definition msgTypeProposal     := Byte.x11.
Definition msgTypeProposalPOL  := Byte.x12.
Definition msgTypeBlockPart    := Byte.x13.
Definition msgTypeVote         := Byte.x14.
Definition msgTypeHasVote      := Byte.x15.
Definition msgTypeVoteSetMaj23 := Byte.x16.
Definition msgTypeVoteSetBits  := Byte.x17.
Definition msgTypeProposalHeartbeat := Byte.x20.

(** The type bytes registered with [wire.RegisterInterface]. *)
Definition registeredTypes : list Byte.byte :=
  [msgTypeNewRoundStep; msgTypeCommitStep; msgTypeProposal; msgTypeProposalPOL;
   msgTypeBlockPart; msgTypeVote; msgTypeHasVote; msgTypeVoteSetMaj23;
   msgTypeVoteSetBits; msgTypeProposalHeartbeat].

Definition is_registered (b : Byte.byte) : bool :=
  existsb (fun t => Byte.eqb t b) registeredTypes.

Section Decode.
(** A decoded consensus message, and the struct-field decoding of a body
    for a registered type byte ([None]: malformed body). *)
Variable ConsensusMessage : Type.
Variable decodeBody : Byte.byte -> list Byte.byte -> option ConsensusMessage.

(** Modelled from the spec: [wire.ReadBinary] (go-wire) reading a
    [struct{ ConsensusMessage }] with byte limit [lmt]: input longer than the
    limit, an unknown type byte or a malformed body set the error and leave
    the holder's [ConsensusMessage] nil; it does not panic. *)
Definition ReadBinary (bz : list Byte.byte) (lmt : Z)
    : option ConsensusMessage * option string :=
  if lmt <? Z.of_nat (length bz) then (None, Some "Error: Reading too many bytes"%string)
  else match bz with
       | [] => (None, Some "EOF"%string)
       | t :: body =>
           if negb (is_registered t) then (None, Some "Error: Unrecognized type byte"%string)
           else match decodeBody t body with
                | Some m => (Some m, None)
                | None => (None, Some "Error: malformed body"%string)
                end
       end.

(** [DecodeMessage(bz)]: [msgType = bz[0]] panics on an empty slice. *)
Definition DecodeMessage (bz : list Byte.byte)
    : outcome (Byte.byte * option ConsensusMessage * option string) :=
  match bz with
  | [] => Panicked "runtime error: index out of range"
  | msgType :: _ =>
      let '(msg, err) := ReadBinary bz maxConsensusMessageSize in
      Done (msgType, msg, err)
  end.
End Decode.

(* ------------------------------------------------------------------ *)
(** ** [TxEventBuffer] (src/unnamed/part_000) *)

Definition txEventBufferCapacity : Z := 1000.

Section TxEventBuffer.
Variable EventDataTx : Type.
(** The state of the underlying [TxEventPublisher] and its
    [PublishEventTx], which may fail. *)
Variable Publisher : Type.
Variable nextPublishEventTx : Publisher -> EventDataTx -> Publisher * option string.

Record TxEventBuffer := mkTxEventBuffer {
  next : Publisher;
  events : list EventDataTx }.

Definition NewTxEventBuffer (p : Publisher) : TxEventBuffer :=
  mkTxEventBuffer p [].

(** [PublishEventTx]: [b.events = append(b.events, e); return nil]. *)
Definition PublishEventTx (e : EventDataTx) (b : TxEventBuffer)
    : TxEventBuffer * option string :=
  (mkTxEventBuffer (next b) (events b ++ [e]), None).

(** The [for _, e := range b.events] loop of [Flush]; also returns the
    events handed to the publisher, in call order. *)
Fixpoint flush_loop (p : Publisher) (es : list EventDataTx)
    : Publisher * list EventDataTx * option string :=
  match es with
  | [] => (p, [], None)
  | e :: es =>
      let '(p, err) := nextPublishEventTx p e in
      match err with
      | Some _ => (p, [e], err)
      | None => let '(p, sent, err) := flush_loop p es in (p, e :: sent, err)
      end
  end.

(** [Flush]: deliver, return the first error, reset only on success. *)
Definition Flush (b : TxEventBuffer)
    : TxEventBuffer * list EventDataTx * option string :=
  let '(p, sent, err) := flush_loop (next b) (events b) in
  match err with
  | Some _ => (mkTxEventBuffer p (events b), sent, err)
  | None => (mkTxEventBuffer p [], sent, None)
  end.

Fixpoint publish_all (es : list EventDataTx) (b : TxEventBuffer) : TxEventBuffer :=
  match es with
  | [] => b
  | e :: es => publish_all es (fst (PublishEventTx e b))
  end.
End TxEventBuffer.

(* ------------------------------------------------------------------ *)
(** ** [BroadcastTxCommit] (rpc/core/mempool.go) *)

(** [abci.Result]; [abci.Result{}] is the zero result. *)
Record ABCIResult := mkABCIResult {
  res_Code : Z; res_Data : list Byte.byte; res_Log : string }.
Definition zeroResult := mkABCIResult 0 [] "".
Definition CodeType_OK : Z := 0.

Record ResultBroadcastTxCommit := mkResultBroadcastTxCommit {
  CheckTx : ABCIResult; DeliverTx : ABCIResult;
  TxHash : list Byte.byte; TxHeight : Z }.

(** [EventDataTx] as received on [deliverTxResCh]. *)
Record EventDataTxRes := mkEventDataTxRes {
  ev_Height : Z; ev_Code : Z; ev_Data : list Byte.byte; ev_Log : string }.

(** The effects [BroadcastTxCommit] performs, in order.  Durations are in
    milliseconds. *)
Inductive Effect :=
| EffSubscribe (ctxTimeout : Z)
| EffCheckTx
| EffStartTimer (duration : Z)
| EffUnsubscribe.

(** The collaborators: the event bus, the mempool and the [select] between
    [deliverTxResCh] and the timer ([None]: the timer fired first). *)
Record Env := mkEnv {
  env_Subscribe : Z -> option string;
  env_CheckTx : string + ABCIResult;
  env_Select : Z -> option EventDataTxRes }.

Definition subscribeTimeoutMs : Z := 10.             (* 10*time.Millisecond *)
Definition commitTimeoutMs : Z := 60 * 2 * 1000.     (* 60*2*time.Second *)

Definition BroadcastTxCommit (env : Env) (txHash : list Byte.byte)
    : list Effect * option ResultBroadcastTxCommit * option string :=
  match env_Subscribe env subscribeTimeoutMs with
  | Some err => ([EffSubscribe subscribeTimeoutMs], None,
                 Some ("Error broadcasting transaction: failed to subscribe to tx: " ++ err)%string)
  | None =>
  (* defer eventBus.Unsubscribe *)
  match env_CheckTx env with
  | inl err => ([EffSubscribe subscribeTimeoutMs; EffCheckTx; EffUnsubscribe], None,
                Some ("Error broadcasting transaction: " ++ err)%string)
  | inr checkTxR =>
  if negb (res_Code checkTxR =? CodeType_OK) then
    ([EffSubscribe subscribeTimeoutMs; EffCheckTx; EffUnsubscribe],
     Some (mkResultBroadcastTxCommit checkTxR zeroResult txHash 0), None)
  else
    let eff := [EffSubscribe subscribeTimeoutMs; EffCheckTx;
                EffStartTimer commitTimeoutMs; EffUnsubscribe] in
    match env_Select env commitTimeoutMs with
    | Some ev =>
        (eff, Some (mkResultBroadcastTxCommit checkTxR
                      (mkABCIResult (ev_Code ev) (ev_Data ev) (ev_Log ev))
                      txHash (ev_Height ev)), None)
    | None =>
        (eff, Some (mkResultBroadcastTxCommit checkTxR zeroResult txHash 0),
         Some "Timed out waiting for transaction to be included in a block"%string)
    end
  end
  end.

(* ------------------------------------------------------------------ *)
(** ** [gossipVotesForHeight] *)

(** Which vote set a [PickSendVote] call was given. *)
Inductive Attempt :=
| AttLastCommit
| AttPrevotes (round : Z)
| AttPrecommits (round : Z)
| AttPOLPrevotes (round : Z).

Section GossipVotes.
Variable VoteSet : Type.
(** [RoundState] as far as vote gossip reads it; [rs.Votes.Prevotes(r)] may
    be nil. *)
Record RoundState := mkRoundState {
  rs_Height : Z; rs_Round : Z;
  rs_Prevotes : Z -> option VoteSet;
  rs_Precommits : Z -> option VoteSet;
  rs_LastCommit : option VoteSet }.

(** [ps.PickSendVote(votes)], threading whatever state it touches. *)
Variable S : Type.
Variable PickSendVote : S -> option VoteSet -> S * bool.

(** Returns the attempts made, in order, and whether a vote was sent. *)
Definition gossipVotesForHeight (rs : RoundState) (p : PeerRoundState) (s : S)
    : S * list Attempt * bool :=
  let try_ (a : Attempt) (vs : option VoteSet) (s : S) (tr : list Attempt)
           (k : S -> list Attempt -> S * list Attempt * bool) :=
    let '(s, ok) := PickSendVote s vs in
    if ok then (s, tr ++ [a], true) else k s (tr ++ [a]) in
  let polStep (s : S) (tr : list Attempt) :=
    if negb (ProposalPOLRound p =? -1) then
      match rs_Prevotes rs (ProposalPOLRound p) with
      | Some pol => try_ (AttPOLPrevotes (ProposalPOLRound p)) (Some pol) s tr
                         (fun s tr => (s, tr, false))
      | None => (s, tr, false)
      end
    else (s, tr, false) in
  let precommitStep (s : S) (tr : list Attempt) :=
    if (Step p <=? RoundStepPrecommit) && negb (Round p =? -1) && (Round p <=? rs_Round rs)
    then try_ (AttPrecommits (Round p)) (rs_Precommits rs (Round p)) s tr polStep
    else polStep s tr in
  let prevoteStep (s : S) (tr : list Attempt) :=
    if (Step p <=? RoundStepPrevote) && negb (Round p =? -1) && (Round p <=? rs_Round rs)
    then try_ (AttPrevotes (Round p)) (rs_Prevotes rs (Round p)) s tr precommitStep
    else precommitStep s tr in
  if Step p =? RoundStepNewHeight
  then try_ AttLastCommit (rs_LastCommit rs) s [] prevoteStep
  else prevoteStep s [].

(** The order the spec states: the candidates whose conditions hold, tried in
    turn until one send succeeds. *)
Fixpoint first_success (cands : list (Attempt * option VoteSet)) (s : S) (tr : list Attempt)
    : S * list Attempt * bool :=
  match cands with
  | [] => (s, tr, false)
  | (a, vs) :: cs =>
      let '(s, ok) := PickSendVote s vs in
      if ok then (s, tr ++ [a], true) else first_success cs s (tr ++ [a])
  end.

Definition spec_candidates (rs : RoundState) (p : PeerRoundState)
    : list (Attempt * option VoteSet) :=
  (if Step p =? RoundStepNewHeight then [(AttLastCommit, rs_LastCommit rs)] else []) ++
  (if (Step p <=? RoundStepPrevote) && (Round p <=? rs_Round rs)
   then [(AttPrevotes (Round p), rs_Prevotes rs (Round p))] else []) ++
  (if (Step p <=? RoundStepPrecommit) && (Round p <=? rs_Round rs)
   then [(AttPrecommits (Round p), rs_Precommits rs (Round p))] else []) ++
  (if negb (ProposalPOLRound p =? -1)
   then [(AttPOLPrevotes (ProposalPOLRound p), rs_Prevotes rs (ProposalPOLRound p))]
   else []).

(** The amended order: prevotes and precommits also need [prs.Round <> -1],
    and the POL prevotes are only tried when that vote set is non-nil. *)
Definition amended_candidates (rs : RoundState) (p : PeerRoundState)
    : list (Attempt * option VoteSet) :=
  (if Step p =? RoundStepNewHeight then [(AttLastCommit, rs_LastCommit rs)] else []) ++
  (if (Step p <=? RoundStepPrevote) && negb (Round p =? -1) && (Round p <=? rs_Round rs)
   then [(AttPrevotes (Round p), rs_Prevotes rs (Round p))] else []) ++
  (if (Step p <=? RoundStepPrecommit) && negb (Round p =? -1) && (Round p <=? rs_Round rs)
   then [(AttPrecommits (Round p), rs_Precommits rs (Round p))] else []) ++
  (if negb (ProposalPOLRound p =? -1)
   then match rs_Prevotes rs (ProposalPOLRound p) with
        | Some pol => [(AttPOLPrevotes (ProposalPOLRound p), Some pol)]
        | None => []
        end
   else []).
End GossipVotes.

(* ------------------------------------------------------------------ *)
(** ** [ApplyVoteSetBitsMessage] and [Receive] *)

Definition StateChannel       := Byte.x20.
Definition DataChannel        := Byte.x21.
Definition VoteChannel        := Byte.x22.
Definition VoteSetBitsChannel := Byte.x23.

(** The concrete [ConsensusMessage] types registered with go-wire, with the
    fields the reactor reads. *)
Inductive ConsensusMsg :=
| NewRoundStepMessage (m : NRS.t)
| CommitStepMessage (height : Z) (hdr : PartSetHeader) (parts : option BitArray)
| ProposalMessage (height round : Z) (hdr : PartSetHeader) (polRound : Z)
| ProposalPOLMessage (height polRound : Z) (pol : option BitArray)
| BlockPartMessage (height round : Z) (index : nat)
| VoteMessage (vote : Vote)
| HasVoteMessage (height round type_ : Z) (index : nat)
| VoteSetMaj23Message (height round type_ : Z) (blockID : list Byte.byte)
| VoteSetBitsMessage (height round type_ : Z) (blockID : list Byte.byte)
                     (votes : option BitArray)
| ProposalHeartbeatMessage.

(** What [Receive] reads from the consensus state: [cs.Height],
    [cs.Validators.Size()], [cs.LastCommit.Size()], and
    [votes.Prevotes(round)] / [votes.Precommits(round)] [.BitArrayByBlockID]
    chosen by the vote type. *)
Record ConsensusInfo := mkConsensusInfo {
  cs_Height : Z;
  cs_ValidatorsSize : Z;
  cs_LastCommitSize : Z;
  cs_BitArrayByBlockID : Z -> Z -> list Byte.byte -> option BitArray }.

(** The effects of [Receive] besides the peer state. *)
Inductive RecvEffect :=
| QueuePeerMsg (m : ConsensusMsg)          (* conS.peerMsgQueue <- msgInfo{msg, src.Key} *)
| SetPeerMaj23 (round type_ : Z) (blockID : list Byte.byte)
| SendVoteSetBits (m : ConsensusMsg).      (* src.TrySend(VoteSetBitsChannel, ...) *)

(** The state-channel branch of [Receive]. *)
Definition receive_state (now : Z) (cs : ConsensusInfo) (msg : option ConsensusMsg)
    (st : PeerState) : outcome (PeerState * list RecvEffect) :=
  match msg with
  | Some (NewRoundStepMessage m) => Done (ApplyNewRoundStepMessage now m st, [])
  | Some (CommitStepMessage h hdr parts) => Done (ApplyCommitStepMessage h hdr parts st, [])
  | Some (HasVoteMessage h r t i) =>
      match ApplyHasVoteMessage h r t i st with
      | Done st => Done (st, [])
      | Panicked why => Panicked why
      end
  | Some (VoteSetMaj23Message h r t bid) =>
      if negb (cs_Height cs =? h) then Done (st, []) else
      if (t =? VoteTypePrevote) || (t =? VoteTypePrecommit)
      then Done (st, [SetPeerMaj23 r t bid;
                      SendVoteSetBits (VoteSetBitsMessage h r t bid
                                         (cs_BitArrayByBlockID cs r t bid))])
      else Done (st, [SetPeerMaj23 r t bid])   (* Bad VoteSetBitsMessage field Type *)
  | _ => Done (st, [])   (* ProposalHeartbeat is logged; anything else is unknown *)
  end.

Section ReceiveSec.
(** [cmn.BitArray]'s [Sub], [Or] and [Update] (tmlibs), left abstract:
    [Sub] and [Or] build new arrays, [Update] overwrites the receiver's bits
    ([Update] with a nil argument included). *)
Variable BitArray_Sub : BitArray -> BitArray -> option BitArray.
Variable BitArray_Or : option BitArray -> option BitArray -> option BitArray.
Variable BitArray_Update : BitArray -> option BitArray -> BitArray.

(** [ApplyVoteSetBitsMessage(msg, ourVotes)]. *)
Definition ApplyVoteSetBitsMessage (height round type_ : Z)
    (msgVotes ourVotes : option BitArray) (st : PeerState) : outcome PeerState :=
  match getVoteBitArray (prs st) height round type_ with
  | Panicked why => Panicked why
  | Done None => Done st
  | Done (Some l) =>
      match mem st !! l with
      | None => Done st
      | Some votes =>
          let votes' :=
            match ourVotes with
            | None => BitArray_Update votes msgVotes
            | Some our =>
                let otherVotes := BitArray_Sub votes our in
                let hasVotes := BitArray_Or otherVotes msgVotes in
                BitArray_Update votes hasVotes
            end in
          Done (mkPeerState (prs st) (<[l := votes']> (mem st)))
      end
  end.

Variable decodeBody : Byte.byte -> list Byte.byte -> option ConsensusMsg.

(** [Receive(chID, src, msgBytes)] on the peer state of [src]; [running] is
    [conR.IsRunning()] and [fastSync] is [conR.FastSync()]. *)
Definition Receive (running : bool) (chID : Byte.byte) (fastSync : bool)
    (cs : ConsensusInfo) (now : Z) (msgBytes : list Byte.byte) (st : PeerState)
    : outcome (PeerState * list RecvEffect) :=
  if negb running then Done (st, []) else
  match DecodeMessage ConsensusMsg decodeBody msgBytes with
  | Panicked why => Panicked why
  | Done (_, _, Some _) => Done (st, [])   (* Error decoding message *)
  | Done (_, msg, None) =>
  if Byte.eqb chID StateChannel then receive_state now cs msg st
  else if Byte.eqb chID DataChannel then
    (if fastSync then Done (st, []) else
    match msg with
    | Some (ProposalMessage h r hdr pol) =>
        Done (SetHasProposal h r hdr pol st, [QueuePeerMsg (ProposalMessage h r hdr pol)])
    | Some (ProposalPOLMessage h r pol) => Done (ApplyProposalPOLMessage h r pol st, [])
    | Some (BlockPartMessage h r i) =>
        Done (SetHasProposalBlockPart h r i st, [QueuePeerMsg (BlockPartMessage h r i)])
    | _ => Done (st, [])
    end)
  else if Byte.eqb chID VoteChannel then
    (if fastSync then Done (st, []) else
    match msg with
    | Some (VoteMessage v) =>
        let st := ensureVoteBitArrays (cs_Height cs) (cs_ValidatorsSize cs) st in
        let st := ensureVoteBitArrays (cs_Height cs - 1) (cs_LastCommitSize cs) st in
        match SetHasVote v st with
        | Done st => Done (st, [QueuePeerMsg (VoteMessage v)])
        | Panicked why => Panicked why
        end
    | _ => Done (st, [])
    end)
  else if Byte.eqb chID VoteSetBitsChannel then
    (if fastSync then Done (st, []) else
    match msg with
    | Some (VoteSetBitsMessage h r t bid votes) =>
        let res :=
          if cs_Height cs =? h then
            (if (t =? VoteTypePrevote) || (t =? VoteTypePrecommit)
             then ApplyVoteSetBitsMessage h r t votes (cs_BitArrayByBlockID cs r t bid) st
             else Done st)   (* Bad VoteSetBitsMessage field Type *)
          else ApplyVoteSetBitsMessage h r t votes None st in
        match res with
        | Done st => Done (st, [])
        | Panicked why => Panicked why
        end
    | _ => Done (st, [])
    end)
  else Done (st, [])   (* Unknown chId *)
  end.
End ReceiveSec.

(* ------------------------------------------------------------------ *)
(** ** [makeRoundStepMessages], [sendNewRoundStepMessages] *)

Module CS.
(** The consensus [RoundState] fields [makeRoundStepMessages] reads:
    [LastCommitRound] is [rs.LastCommit.Round()], and the last two are what
    [rs.ProposalBlockParts.Header()] and [.BitArray()] return. *)
Record RoundState := mk {
  Height : Z; Round : Z; Step : RoundStepType; StartTime : Z;
  LastCommitRound : Z;
  ProposalBlockPartsHeader : PartSetHeader;
  ProposalBlockPartsBitArray : option BitArray }.
End CS.

(** [makeRoundStepMessages(rs)]; [secondsSince t] is the value of
    [int(time.Since(t).Seconds())] at the time of the call.  It is left
    abstract: [time.Since] saturates, [Seconds] rounds to a [float64] and
    [int] truncates that towards zero. *)
Definition makeRoundStepMessages (secondsSince : Z -> Z) (rs : CS.RoundState)
    : ConsensusMsg * option ConsensusMsg :=
  (NewRoundStepMessage (NRS.mk (CS.Height rs) (CS.Round rs) (CS.Step rs)
                               (secondsSince (CS.StartTime rs))
                               (CS.LastCommitRound rs)),
   if CS.Step rs =? RoundStepCommit
   then Some (CommitStepMessage (CS.Height rs) (CS.ProposalBlockPartsHeader rs)
                                (CS.ProposalBlockPartsBitArray rs))
   else None).

(** [sendNewRoundStepMessages(peer)]: the messages sent, in order
    ([nrsMsg] is never nil). *)
Definition sendNewRoundStepMessages (secondsSince : Z -> Z) (rs : CS.RoundState)
    : list ConsensusMsg :=
  let '(nrsMsg, csMsg) := makeRoundStepMessages secondsSince rs in
  nrsMsg :: match csMsg with Some m => [m] | None => [] end.

(** A peer's reactor receiving state-channel messages in order. *)
Fixpoint deliver_state (now : Z) (cs : ConsensusInfo) (ms : list ConsensusMsg)
    (st : PeerState) : outcome PeerState :=
  match ms with
  | [] => Done st
  | m :: ms =>
      match receive_state now cs (Some m) st with
      | Done (st, _) => deliver_state now cs ms st
      | Panicked why => Panicked why
      end
  end.

(* ------------------------------------------------------------------ *)
(** ** Event data, event types and the event bus (types/events.go,
    types/event_bus.go) *)

Section EventData.
Variable P : Type.
(** The value held by the [TMEventDataInner] interface: nil, a concrete
    event data [d], or another [TMEventData{w}]. *)
Inductive TMEventDataInner :=
| InnerNil
| InnerData (d : P)
| InnerWrapped (w : TMEventDataInner).

Record TMEventData := mkTMEventData { TMEventDataInner_ : TMEventDataInner }.

Fixpoint unwrap_inner (i : TMEventDataInner) : TMEventDataInner :=
  match i with
  | InnerWrapped w => unwrap_inner w
  | _ => i
  end.

(** [Unwrap]: strip [TMEventData] wrappers while the inner value is one. *)
Definition Unwrap (tmr : TMEventData) : TMEventDataInner :=
  unwrap_inner (TMEventDataInner_ tmr).

(** [Empty]: [tmr.TMEventDataInner == nil]. *)
Definition Empty (tmr : TMEventData) : bool :=
  match TMEventDataInner_ tmr with InnerNil => true | _ => false end.
End EventData.
Arguments InnerNil {P}.
Arguments InnerData {P} d.
Arguments InnerWrapped {P} w.
Arguments mkTMEventData {P} _.
Arguments TMEventDataInner_ {P} _.
Arguments Unwrap {P} tmr.
Arguments Empty {P} tmr.

(** [EventDataTx]. *)
Record EventDataTx := mkEventDataTx {
  etx_Height : Z; etx_Tx : list Byte.byte; etx_Data : list Byte.byte;
  etx_Log : string; etx_Code : Z; etx_Error : string }.

Definition EventTypeKey : string := "tm.events.type".

(** [fmt.Sprintf("%X", bz)]: two upper-case hex digits per byte. *)
Definition hex_digit (n : nat) : ascii :=
  nth n (list_ascii_of_string "0123456789ABCDEF") "0"%char.

Definition hex_byte (b : Byte.byte) : string :=
  String (hex_digit (Byte.to_nat b / 16)) (String (hex_digit (Byte.to_nat b mod 16)) EmptyString).

Fixpoint hex_upper (bz : list Byte.byte) : string :=
  match bz with
  | [] => EmptyString
  | b :: bz => (hex_byte b ++ hex_upper bz)%string
  end.

(** The published-message log of the [tmpubsub.Server] behind an
    [EventBus]: each message with its tags; [None] is a nil [pubsub]. *)
Record EventBus (P : Type) := mkEventBus {
  pubsub : option (list (list (string * string) * TMEventData P)) }.
Arguments mkEventBus {P} _.
Arguments pubsub {P} _.

(** [b.publish(eventType, eventData)]: [PublishWithTags] with the single tag
    [EventTypeKey: eventType] when [pubsub] is non-nil; always returns nil. *)
Definition publish {P : Type} (eventType : string) (eventData : TMEventData P)
    (b : EventBus P) : EventBus P * option string :=
  match pubsub b with
  | Some log => (mkEventBus (Some (log ++ [([(EventTypeKey, eventType)], eventData)])), None)
  | None => (b, None)
  end.

Section TxEvents.
(** [tx.Hash()]. *)
Variable Hash : list Byte.byte -> list Byte.byte.

(** [EventTx(tx)]: [fmt.Sprintf("Tx:%X", tx.Hash())]. *)
Definition EventTx (tx : list Byte.byte) : string :=
  ("Tx:" ++ hex_upper (Hash tx))%string.

(** [EventBus.PublishEventTx]. *)
Definition EventBus_PublishEventTx (b : EventBus EventDataTx) (tx : EventDataTx)
    : EventBus EventDataTx * option string :=
  publish (EventTx (etx_Tx tx)) (mkTMEventData (InnerData tx)) b.
End TxEvents.

(* ------------------------------------------------------------------ *)
(** ** [BroadcastTxAsync], [BroadcastTxSync] (rpc/core/mempool.go) *)

Record ResultBroadcastTx := mkResultBroadcastTx {
  rb_Code : Z; rb_Data : list Byte.byte; rb_Log : string; rb_Hash : list Byte.byte }.

(** [checkTx] is what [mempool.CheckTx] gives: its error, or the response
    its callback receives. *)
Definition BroadcastTxAsync (checkTx : string + ABCIResult) (txHash : list Byte.byte)
    : option ResultBroadcastTx * option string :=
  match checkTx with
  | inl err => (None, Some ("Error broadcasting transaction: " ++ err)%string)
  | inr _ => (Some (mkResultBroadcastTx 0 [] "" txHash), None)
  end.

Definition BroadcastTxSync (checkTx : string + ABCIResult) (txHash : list Byte.byte)
    : option ResultBroadcastTx * option string :=
  match checkTx with
  | inl err => (None, Some ("Error broadcasting transaction: " ++ err)%string)
  | inr r => (Some (mkResultBroadcastTx (res_Code r) (res_Data r) (res_Log r) txHash), None)
  end.

(* ------------------------------------------------------------------ *)
(** ** The client wait helpers (src/unnamed/part_001) *)

(** A [Waiter], with the time it sleeps (in milliseconds) made explicit. *)
Definition Waiter := Z -> Z * option string.

(** [DefaultWaitStrategy(delta)]. *)
Definition DefaultWaitStrategy : Waiter := fun delta =>
  if 10 <? delta
  then (0, Some ("Waiting for " ++ NilZero.string_of_int (Z.to_int delta)
                 ++ " blocks... aborting")%string)
  else if 0 <? delta then ((delta - 1) * 1000 + 500, None)
  else (0, None).

(** The [for delta > 0] loop of [WaitForHeight], against the answers
    [c.Status()] gives in turn ([inl]: an error, [inr]: LatestBlockHeight).
    It returns the number of [Status] calls, the waiter's sleeps and the
    error; [None] when the answers run out while the loop still waits. *)
Fixpoint wait_loop (waiter : Waiter) (h : Z) (statuses : list (string + Z))
    : option (nat * list Z * option string) :=
  match statuses with
  | [] => None
  | inl err :: _ => Some (1%nat, [], Some err)
  | inr latest :: rest =>
      let delta := wrap64 (h - latest) in   (* int subtraction *)
      let '(slept, abort) := waiter delta in
      match abort with
      | Some err => Some (1%nat, [slept], Some err)
      | None =>
          if 0 <? delta then
            match wait_loop waiter h rest with
            | Some (n, sleeps, err) => Some (S n, slept :: sleeps, err)
            | None => None
            end
          else Some (1%nat, [slept], None)
      end
  end.

(** [WaitForHeight(c, h, waiter)]: a nil waiter is [DefaultWaitStrategy];
    [delta := 1] makes the loop run at least once. *)
Definition WaitForHeight (statuses : list (string + Z)) (h : Z) (waiter : option Waiter)
    : option (nat * list Z * option string) :=
  let waiter := match waiter with Some w => w | None => DefaultWaitStrategy end in
  wait_loop waiter h statuses.

(** Every height [c.Status()] answers is a non-negative [int]. *)
Definition int64_heights (statuses : list (string + Z)) : bool :=
  forallb (fun s => match s with
                    | inl _ => true
                    | inr l => (0 <=? l) && (l <? 2 ^ 63)
                    end) statuses.

(** The effects of [WaitForOneEvent], in order. *)
Inductive ClientEffect :=
| CSubscribe (query : string)
| CUnsubscribeAll
| CCancel.

(** [WaitForOneEvent(c, evtTyp, timeout)]: [subscribe] is the error of
    [c.Subscribe], [select] the event that arrives before the timeout
    ([None]: the timeout fired first). *)
Definition WaitForOneEvent {P : Type} (subscribe : option string)
    (select : option (TMEventData P)) (evtTyp : string)
    : list ClientEffect * TMEventData P * option string :=
  let q := (EventTypeKey ++ "=" ++ evtTyp)%string in
  match subscribe with
  | Some err => ([CSubscribe q; CCancel], mkTMEventData InnerNil,
                 Some ("failed to subscribe: " ++ err)%string)
  | None =>
      (* defer cancel(); defer c.UnsubscribeAll(ctx) *)
      match select with
      | Some evt => ([CSubscribe q; CUnsubscribeAll; CCancel], evt, None)
      | None => ([CSubscribe q; CUnsubscribeAll; CCancel], mkTMEventData InnerNil,
                 Some "timed out waiting for event"%string)
      end
  end.

(* ================================================================== *)
(** * Properties *)

Definition hrs_le_st (st st' : PeerState) : Prop :=
  hrs_le (Height (prs st)) (Round (prs st)) (Step (prs st))
         (Height (prs st')) (Round (prs st')) (Step (prs st')).

Definition same_hrs (st st' : PeerState) : Prop :=
  Height (prs st') = Height (prs st) /\ Round (prs st') = Round (prs st) /\
  Step (prs st') = Step (prs st).

Ltac split_ifs :=
  repeat match goal with
         | |- context [if ?b then _ else _] => destruct b
         | |- context [match ?x with Some _ => _ | None => _ end] => destruct x
         | |- context [let '(_, _) := ?x in _] => destruct x
         end.

Lemma hrs_le_refl st : hrs_le_st st st.
Proof. unfold hrs_le_st, hrs_le. lia. Qed.

Lemma hrs_le_trans a b c : hrs_le_st a b -> hrs_le_st b c -> hrs_le_st a c.
Proof. unfold hrs_le_st, hrs_le. lia. Qed.

Lemma same_hrs_le st st' : same_hrs st st' -> hrs_le_st st st'.
Proof. unfold same_hrs, hrs_le_st, hrs_le. lia. Qed.

Lemma CompareHRS_le h1 r1 s1 h2 r2 s2 :
  CompareHRS h1 r1 s1 h2 r2 s2 <= 0 <-> hrs_le h1 r1 s1 h2 r2 s2.
Proof.
  unfold CompareHRS, hrs_le.
  destruct (h1 <? h2) eqn:E1; destruct (h2 <? h1) eqn:E2;
  destruct (r1 <? r2) eqn:E3; destruct (r2 <? r1) eqn:E4;
  destruct (s1 <? s2) eqn:E5; destruct (s2 <? s1) eqn:E6;
  rewrite ?Z.ltb_lt, ?Z.ltb_ge in *; lia.
Qed.

Lemma ensure_field_hrs get set n st :
  (forall p v, Height (set p v) = Height p /\ Round (set p v) = Round p /\
               Step (set p v) = Step p) ->
  same_hrs st (ensure_field get set n st).
Proof.
  intros Hs. unfold ensure_field, same_hrs.
  destruct (get (prs st)); [auto|].
  destruct (NewBitArray n (mem st)). simpl. apply Hs.
Qed.

Lemma same_hrs_trans a b c : same_hrs a b -> same_hrs b c -> same_hrs a c.
Proof. unfold same_hrs. intuition congruence. Qed.

Lemma ensureVoteBitArrays_hrs h n st : same_hrs st (ensureVoteBitArrays h n st).
Proof.
  unfold ensureVoteBitArrays.
  destruct (Height (prs st) =? h).
  - eapply same_hrs_trans; [|apply ensure_field_hrs; simpl; auto].
    eapply same_hrs_trans; [|apply ensure_field_hrs; simpl; auto].
    eapply same_hrs_trans; apply ensure_field_hrs; simpl; auto.
  - destruct (Height (prs st) =? h + 1).
    + apply ensure_field_hrs; simpl; auto.
    + unfold same_hrs; auto.
Qed.

Lemma setHasVote_prs h r t i st st' :
  setHasVote h r t i st = Done st' -> prs st' = prs st.
Proof.
  unfold setHasVote. destruct (getVoteBitArray (prs st) h r t); [|discriminate].
  intros E. injection E as <-. reflexivity.
Qed.

Lemma wrap64_id z : - 2 ^ 63 <= z < 2 ^ 63 -> wrap64 z = z.
Proof.
  intros Hz. unfold wrap64. rewrite Z.mod_small by lia. lia.
Qed.

(** With no overflow, [-1 * time.Duration(secs) * time.Second] is exact. *)
Lemma wrap64_duration now secs :
  Z.abs secs * Second < 2 ^ 63 ->
  now + wrap64 (wrap64 (-1 * secs) * Second) = now - secs * Second.
Proof.
  unfold Second. intros Hb.
  assert (Hs : Z.abs secs < 2 ^ 63) by lia.
  rewrite (wrap64_id (-1 * secs)) by lia.
  rewrite wrap64_id by lia. lia.
Qed.

Lemma ApplyNewRoundStepMessage_drop now msg st :
  hrs_le (NRS.Height msg) (NRS.Round msg) (NRS.Step msg)
         (Height (prs st)) (Round (prs st)) (Step (prs st)) ->
  ApplyNewRoundStepMessage now msg st = st.
Proof.
  intros H. apply CompareHRS_le in H. unfold ApplyNewRoundStepMessage.
  apply Z.leb_le in H. rewrite H. reflexivity.
Qed.

Lemma CompareHRS_pos h1 r1 s1 h2 r2 s2 :
  0 < CompareHRS h1 r1 s1 h2 r2 s2 -> hrs_le h2 r2 s2 h1 r1 s1.
Proof.
  unfold CompareHRS, hrs_le.
  destruct (h1 <? h2) eqn:E1; destruct (h2 <? h1) eqn:E2;
  destruct (r1 <? r2) eqn:E3; destruct (r2 <? r1) eqn:E4;
  destruct (s1 <? s2) eqn:E5; destruct (s2 <? s1) eqn:E6;
  rewrite ?Z.ltb_lt, ?Z.ltb_ge in *; lia.
Qed.

(** A message that passes the HRS check sets the peer's (H, R, Step). *)
Lemma ApplyNewRoundStepMessage_fields now msg st :
  0 < CompareHRS (NRS.Height msg) (NRS.Round msg) (NRS.Step msg)
                 (Height (prs st)) (Round (prs st)) (Step (prs st)) ->
  let p := prs (ApplyNewRoundStepMessage now msg st) in
  Height p = NRS.Height msg /\ Round p = NRS.Round msg /\ Step p = NRS.Step msg.
Proof.
  intros Hc. unfold ApplyNewRoundStepMessage.
  destruct (_ <=? 0) eqn:E; [apply Z.leb_le in E; lia|]. cbn zeta.
  destruct (negb _ || negb _); destruct (_ && _ && _); destruct (negb _);
  try destruct (_ && _); simpl; auto.
Qed.

Lemma ApplyNewRoundStepMessage_hrs now msg st :
  hrs_le_st st (ApplyNewRoundStepMessage now msg st).
Proof.
  destruct (Z_le_gt_dec (CompareHRS (NRS.Height msg) (NRS.Round msg) (NRS.Step msg)
                 (Height (prs st)) (Round (prs st)) (Step (prs st))) 0) as [Hle|Hgt].
  - unfold ApplyNewRoundStepMessage. apply Z.leb_le in Hle. rewrite Hle.
    apply hrs_le_refl.
  - pose proof (ApplyNewRoundStepMessage_fields now msg st ltac:(lia)) as (E1 & E2 & E3).
    unfold hrs_le_st. rewrite E1, E2, E3. apply CompareHRS_pos. lia.
Qed.

Lemma apply_msg_hrs m st st' : apply_msg m st = Done st' -> hrs_le_st st st'.
Proof.
  destruct m; simpl; intros E.
  - injection E as <-. apply ApplyNewRoundStepMessage_hrs.
  - injection E as <-. apply same_hrs_le. unfold ApplyCommitStepMessage.
    destruct (negb _); [unfold same_hrs; auto|].
    destruct (alloc parts (mem st)). unfold same_hrs; simpl; auto.
  - unfold ApplyHasVoteMessage in E. destruct (negb _).
    + injection E as <-. apply hrs_le_refl.
    + apply setHasVote_prs in E. unfold hrs_le_st. rewrite E. apply hrs_le_refl.
  - injection E as <-. apply hrs_le_refl.
  - injection E as <-. apply hrs_le_refl.
  - injection E as <-. apply same_hrs_le. unfold SetHasProposal.
    destruct (negb _ || negb _); [unfold same_hrs; auto|].
    destruct (Proposal (prs st)); [unfold same_hrs; auto|].
    destruct (NewBitArray (Total hdr) (mem st)). unfold same_hrs; simpl; auto.
  - injection E as <-. apply same_hrs_le. unfold ApplyProposalPOLMessage.
    destruct (negb _); [unfold same_hrs; auto|].
    destruct (negb _); [unfold same_hrs; auto|].
    destruct (alloc pol (mem st)). unfold same_hrs; simpl; auto.
  - injection E as <-. apply same_hrs_le. unfold SetHasProposalBlockPart.
    destruct (negb _ || negb _); unfold same_hrs; simpl; auto.
  - unfold SetHasVote in E. apply setHasVote_prs in E.
    apply same_hrs_le. unfold same_hrs. rewrite E.
    pose proof (ensureVoteBitArrays_hrs csHeight valSize st) as H1.
    pose proof (ensureVoteBitArrays_hrs (csHeight - 1) lastCommitSize
                  (ensureVoteBitArrays csHeight valSize st)) as H2.
    pose proof (same_hrs_trans _ _ _ H1 H2) as H3. exact H3.
Qed.

Lemma apply_msgs_hrs ms st st' : apply_msgs ms st = Done st' -> hrs_le_st st st'.
Proof.
  revert st. induction ms as [|m ms IH]; simpl; intros st E.
  - injection E as <-. apply hrs_le_refl.
  - destruct (apply_msg m st) as [st1|] eqn:Em; [|discriminate].
    eapply hrs_le_trans; [eapply apply_msg_hrs; exact Em | exact (IH _ E)].
Qed.

(** A peer at (H, R, Step) with no bit-arrays allocated. *)
Definition peer_at (h r s : Z) : PeerState :=
  mkPeerState (mkPRS h r s 0 false EmptyPartSetHeader None (-1) None
                     None None (-1) None (-1) None) ∅.

(** ** C1 *)

(** C1: along any sequence of messages applied to a peer's state the triple
    (Height, Round, Step) never decreases in lexicographic order, and a
    NewRoundStepMessage whose (H, R, Step) is lexicographically less than or
    equal to the peer's current triple leaves the whole peer state
    unchanged. *)
Theorem peer_hrs_monotone :
  (forall (ms : list PeerMsg) (st st' : PeerState),
      apply_msgs ms st = Done st' -> hrs_le_st st st') /\
  (forall (now : Z) (msg : NRS.t) (st : PeerState),
      hrs_le (NRS.Height msg) (NRS.Round msg) (NRS.Step msg)
             (Height (prs st)) (Round (prs st)) (Step (prs st)) ->
      ApplyNewRoundStepMessage now msg st = st).
Proof.
  split; [apply apply_msgs_hrs | apply ApplyNewRoundStepMessage_drop].
Qed.

(** The spec's HRS-regression scenario: NewRoundStep(5,2,Prevote) then
    NewRoundStep(5,1,Commit); the second is dropped. *)
Lemma peer_hrs_monotone_witness :
  let ms := [MsgNewRoundStep 0 (NRS.mk 5 2 RoundStepPrevote 0 (-1));
             MsgNewRoundStep 0 (NRS.mk 5 1 RoundStepCommit 0 (-1))] in
  let st' := peer_at 5 2 RoundStepPrevote in
  apply_msgs ms NewPeerState = Done st' /\ hrs_le_st NewPeerState st' /\
  ApplyNewRoundStepMessage 0 (NRS.mk 5 1 RoundStepCommit 0 (-1)) st' = st'.
Proof.
  cbv zeta. split; [vm_compute; reflexivity|]. split.
  - apply (proj1 peer_hrs_monotone
             [MsgNewRoundStep 0 (NRS.mk 5 2 RoundStepPrevote 0 (-1));
              MsgNewRoundStep 0 (NRS.mk 5 1 RoundStepCommit 0 (-1))]).
    vm_compute; reflexivity.
  - apply (proj2 peer_hrs_monotone). vm_compute. right. split; [reflexivity|].
    left; reflexivity.
Defined.

(** ** C2 *)

(** The bit-array a peer at (10, 3, Commit) holds as Precommits. *)
Definition B3 : BitArray := mkBitArray 4 [true; false; true; false].

Definition peer_with_precommits (h r : Z) : PeerState :=
  mkPeerState (mkPRS h r RoundStepCommit 0 false EmptyPartSetHeader None (-1) None
                     None (Some 1%positive) (-1) None (-1) None)
              {[1%positive := B3]}.

(** C2 (counterexample): a peer at (10, 3, Commit) whose Precommits is B3
    receives NewRoundStep(H=12, R=0, NewHeight, LastCommitRound=3): its old
    Round equals msg.LastCommitRound, yet LastCommit is nil, not the old
    Precommits. *)
Lemma lastcommit_shift_counterexample :
  let st := peer_with_precommits 10 3 in
  let msg := NRS.mk 12 0 RoundStepNewHeight 0 3 in
  Round (prs st) = NRS.LastCommitRound msg /\
  NRS.Height msg > Height (prs st) /\
  LastCommit (prs (ApplyNewRoundStepMessage 0 msg st)) <> Precommits (prs st).
Proof. vm_compute. split; [reflexivity|]. split; [reflexivity|]. discriminate. Qed.

(** C2 (amended): when a NewRoundStepMessage with a greater height is
    applied, LastCommitRound becomes msg.LastCommitRound, Prevotes and
    Precommits become nil, CatchupCommitRound becomes -1 and CatchupCommit
    nil; LastCommit becomes nil whenever msg.Height is not the old height + 1
    or the old Round differs from msg.LastCommitRound. *)
Theorem height_transition_lastcommit (now : Z) (msg : NRS.t) (st : PeerState) :
  Height (prs st) < NRS.Height msg ->
  let p := prs (ApplyNewRoundStepMessage now msg st) in
  LastCommitRound p = NRS.LastCommitRound msg /\
  Prevotes p = None /\ Precommits p = None /\
  CatchupCommitRound p = -1 /\ CatchupCommit p = None /\
  (NRS.Height msg <> Height (prs st) + 1 \/ Round (prs st) <> NRS.LastCommitRound msg ->
   LastCommit p = None).
Proof.
  intros Hh. unfold ApplyNewRoundStepMessage.
  assert (Hc : CompareHRS (NRS.Height msg) (NRS.Round msg) (NRS.Step msg)
                 (Height (prs st)) (Round (prs st)) (Step (prs st)) = 1).
  { unfold CompareHRS. destruct (NRS.Height msg <? Height (prs st)) eqn:E1;
    [apply Z.ltb_lt in E1; lia|].
    destruct (Height (prs st) <? NRS.Height msg) eqn:E2; [reflexivity|].
    apply Z.ltb_ge in E2; lia. }
  rewrite Hc. cbn zeta. simpl.
  assert (Hn : (Height (prs st) =? NRS.Height msg) = false) by (apply Z.eqb_neq; lia).
  rewrite Hn. simpl.
  destruct ((Height (prs st) + 1 =? NRS.Height msg) && (Round (prs st) =? NRS.LastCommitRound msg)) eqn:E;
    simpl; repeat split; auto.
Qed.

Lemma height_transition_lastcommit_witness :
  Height (prs (peer_with_precommits 10 3)) < NRS.Height (NRS.mk 12 0 RoundStepNewHeight 0 3) /\
  LastCommit (prs (ApplyNewRoundStepMessage 0 (NRS.mk 12 0 RoundStepNewHeight 0 3)
                     (peer_with_precommits 10 3))) = None.
Proof.
  split; [vm_compute; reflexivity|].
  apply (height_transition_lastcommit 0 (NRS.mk 12 0 RoundStepNewHeight 0 3)
           (peer_with_precommits 10 3)); [vm_compute; reflexivity|].
  left. vm_compute. discriminate.
Defined.

(** The spec's own scenario (10, 3, Commit) -> NewRoundStep(11, 0, NewHeight,
    LastCommitRound=3): Precommits is cleared before it is shifted, so
    LastCommit also ends nil here. *)
Lemma height_transition_next_height_lastcommit_nil :
  LastCommit (prs (ApplyNewRoundStepMessage 0 (NRS.mk 11 0 RoundStepNewHeight 0 3)
                     (peer_with_precommits 10 3))) = None.
Proof. vm_compute. reflexivity. Qed.

(** ** C10 *)

(** C10: PickVoteToSend on a vote-set whose Size() is 0 returns (nil, false)
    and leaves the peer state, heap included, unchanged, also for a commit. *)
Theorem PickVoteToSend_empty (pickRandomSub : BitArray -> BitArray -> option nat)
    (votes : VoteSetReader) (st : PeerState) :
  vs_Size votes = 0 ->
  PickVoteToSend pickRandomSub votes st = Done (None, false, st).
Proof. intros H. unfold PickVoteToSend. rewrite H. reflexivity. Qed.

Lemma PickVoteToSend_empty_witness :
  let votes := mkVoteSetReader 10 2 VoteTypePrecommit 0 true (mkBitArray 0 [])
                               (fun _ => None) in
  vs_Size votes = 0 /\
  PickVoteToSend (fun _ _ => Some 0%nat) votes (peer_at 10 2 RoundStepPrecommit)
  = Done (None, false, peer_at 10 2 RoundStepPrecommit).
Proof.
  cbv zeta. split; [reflexivity|].
  apply PickVoteToSend_empty. reflexivity.
Defined.

(** ** C4 *)

(** The vote-routing matrix as the claim lists it, rows tried in order. *)
Definition routing_matrix (p : PeerRoundState) (h r t : Z) : ptr :=
  if (Height p =? h) && (Round p =? r) && (t =? VoteTypePrevote) then Prevotes p
  else if (Height p =? h) && (Round p =? r) && (t =? VoteTypePrecommit) then Precommits p
  else if (Height p =? h) && (CatchupCommitRound p =? r) && (t =? VoteTypePrecommit)
  then CatchupCommit p
  else if (Height p =? h) && (ProposalPOLRound p =? r) && (t =? VoteTypePrevote)
  then ProposalPOL p
  else if (Height p =? h + 1) && (LastCommitRound p =? r) && (t =? VoteTypePrecommit)
  then LastCommit p
  else None.

(** The matrix as the code routes: a prevote reaches ProposalPOL only when
    CatchupCommitRound differs from the vote's round. *)
Definition routing_matrix_amended (p : PeerRoundState) (h r t : Z) : ptr :=
  if (Height p =? h) && (Round p =? r) && (t =? VoteTypePrevote) then Prevotes p
  else if (Height p =? h) && (Round p =? r) && (t =? VoteTypePrecommit) then Precommits p
  else if (Height p =? h) && (CatchupCommitRound p =? r) && (t =? VoteTypePrecommit)
  then CatchupCommit p
  else if (Height p =? h) && negb (CatchupCommitRound p =? r)
          && (ProposalPOLRound p =? r) && (t =? VoteTypePrevote)
  then ProposalPOL p
  else if (Height p =? h + 1) && (LastCommitRound p =? r) && (t =? VoteTypePrecommit)
  then LastCommit p
  else None.

Lemma getVoteBitArray_route p h r t :
  IsVoteTypeValid t = true ->
  getVoteBitArray p h r t = Done (routing_matrix_amended p h r t).
Proof.
  intros Hv. unfold IsVoteTypeValid in Hv. apply orb_true_iff in Hv.
  unfold getVoteBitArray, routing_matrix_amended.
  destruct Hv as [Ht|Ht]; apply Z.eqb_eq in Ht; subst t; simpl;
  destruct (Z.eqb_spec (Height p) h); destruct (Z.eqb_spec (Height p) (h + 1));
  try lia; simpl;
  destruct (Round p =? r); destruct (CatchupCommitRound p =? r);
  destruct (ProposalPOLRound p =? r); destruct (LastCommitRound p =? r);
  reflexivity.
Qed.

Lemma SetIndex_GetIndex l i (h : heap) ba :
  h !! l = Some ba -> Z.of_nat i < Bits ba -> (i < length (Elems ba))%nat ->
  GetIndex (Some l) i (SetIndex (Some l) i h) = true.
Proof.
  intros Hl Hi Hlen. unfold SetIndex, GetIndex. rewrite Hl.
  destruct (Bits ba <=? Z.of_nat i) eqn:E; [apply Z.leb_le in E; lia|].
  rewrite lookup_insert_eq. simpl. rewrite E.
  rewrite list_lookup_insert_eq by done. reflexivity.
Qed.

(** C4 (counterexample): a peer at (10, 3) whose proposal has POL round 2
    and that holds a catch-up commit for round 2 (CatchupCommitRound =
    ProposalPOLRound = 2, all bit-arrays allocated) receives
    SetHasVote(10, 2, Prevote, 0).  The listed matrix routes it to
    ProposalPOL, but the code routes it to nil: nothing is set. *)
Definition clear4 := mkBitArray 4 [false; false; false; false].

Definition peer_pol_catchup : PeerState :=
  mkPeerState (mkPRS 10 3 RoundStepPrevote 0 true EmptyPartSetHeader None 2
                     (Some 1%positive) (Some 3%positive) (Some 4%positive) (-1) None
                     2 (Some 2%positive))
              (<[1%positive := clear4]> (<[2%positive := clear4]>
                (<[3%positive := clear4]> {[4%positive := clear4]}))).

Lemma SetHasVote_routing_counterexample :
  routing_matrix (prs peer_pol_catchup) 10 2 VoteTypePrevote = Some 1%positive /\
  SetHasVote (mkVote 10 2 VoteTypePrevote 0) peer_pol_catchup = Done peer_pol_catchup /\
  GetIndex (Some 1%positive) 0 (mem peer_pol_catchup) = false.
Proof. vm_compute. split; [reflexivity|]. split; reflexivity. Qed.

(** C4 (amended): for a valid vote type, SetHasVote(H, R, type, index) applies
    SetIndex(index, true) to the bit-array the code's routing matrix chooses
    (Prevotes / Precommits when Height = H and Round = R; CatchupCommit for a
    precommit when Height = H and CatchupCommitRound = R; ProposalPOL for a
    prevote when Height = H, ProposalPOLRound = R and CatchupCommitRound <> R;
    LastCommit for a precommit when Height = H+1 and LastCommitRound = R) and
    changes nothing else; that sets the index-th bit when index is below the
    array's size, and when the matrix yields nil the state is unchanged. *)
Theorem SetHasVote_routes (st : PeerState) (h r t : Z) (index : nat) :
  IsVoteTypeValid t = true ->
  SetHasVote (mkVote h r t index) st =
    Done (mkPeerState (prs st)
            (SetIndex (routing_matrix_amended (prs st) h r t) index (mem st))) /\
  (routing_matrix_amended (prs st) h r t = None ->
   SetHasVote (mkVote h r t index) st = Done st) /\
  (forall l ba, routing_matrix_amended (prs st) h r t = Some l ->
   mem st !! l = Some ba -> Z.of_nat index < Bits ba ->
   (index < length (Elems ba))%nat ->
   GetIndex (Some l) index
     (SetIndex (routing_matrix_amended (prs st) h r t) index (mem st)) = true).
Proof.
  intros Hv. unfold SetHasVote, setHasVote. simpl.
  rewrite (getVoteBitArray_route _ _ _ _ Hv).
  split; [reflexivity|]. split.
  - intros E. rewrite E. destruct st; reflexivity.
  - intros l ba E Hl Hi Hlen. rewrite E. eapply SetIndex_GetIndex; eauto.
Qed.

Lemma SetHasVote_routes_witness :
  IsVoteTypeValid VoteTypePrecommit = true /\
  SetHasVote (mkVote 10 3 VoteTypePrecommit 0) (peer_with_precommits 10 3) =
    Done (mkPeerState (prs (peer_with_precommits 10 3))
            (SetIndex (routing_matrix_amended (prs (peer_with_precommits 10 3))
                         10 3 VoteTypePrecommit) 0 (mem (peer_with_precommits 10 3)))).
Proof.
  split; [reflexivity|].
  apply (fun Hv => proj1 (SetHasVote_routes (peer_with_precommits 10 3)
                             10 3 VoteTypePrecommit 0 Hv)).
  reflexivity.
Defined.

(** ** C5 *)

Lemma NewBitArray_fresh n (h : heap) :
  0 < n ->
  exists l, NewBitArray n h = (Some l, <[l := mkBitArray n (repeat false (Z.to_nat n))]> h)
            /\ h !! l = None.
Proof.
  intros Hn. unfold NewBitArray.
  destruct (n <=? 0) eqn:E; [apply Z.leb_le in E; lia|].
  exists (fresh (dom h)). split; [reflexivity|].
  apply not_elem_of_dom. apply is_fresh.
Qed.

Lemma ensure_field_keeps get set n st (f : PeerRoundState -> ptr) :
  (forall p v, f (set p v) = f p) ->
  f (prs (ensure_field get set n st)) = f (prs st).
Proof.
  intros Hf. unfold ensure_field. destruct (get (prs st)); [reflexivity|].
  destruct (NewBitArray n (mem st)). simpl. apply Hf.
Qed.

Lemma ensure_field_some get set n st l :
  get (prs st) = Some l -> ensure_field get set n st = st.
Proof. intros H. unfold ensure_field. rewrite H. reflexivity. Qed.

(** The state after PickVoteToSend's lazy allocation keeps the Precommits
    and CatchupCommit pointers once both are non-nil. *)
Lemma ensureVoteBitArrays_keeps_commit h n st b :
  Precommits (prs st) = Some b -> CatchupCommit (prs st) = Some b ->
  Precommits (prs (ensureVoteBitArrays h n st)) = Some b /\
  CatchupCommit (prs (ensureVoteBitArrays h n st)) = Some b.
Proof.
  intros Hp Hc. unfold ensureVoteBitArrays.
  destruct (Height (prs st) =? h); [|destruct (Height (prs st) =? h + 1)].
  - set (sa := ensure_field Prevotes set_Prevotes n st).
    assert (Ha : Precommits (prs sa) = Some b /\ CatchupCommit (prs sa) = Some b).
    { subst sa. rewrite !ensure_field_keeps by reflexivity. auto. }
    destruct Ha as [Hap Hac].
    rewrite (ensure_field_some Precommits set_Precommits n sa b Hap).
    rewrite (ensure_field_some CatchupCommit set_CatchupCommit n sa b Hac).
    rewrite !ensure_field_keeps by reflexivity. auto.
  - rewrite !ensure_field_keeps by reflexivity. auto.
  - auto.
Qed.

(** C5 (counterexample): a peer at (10, 2) that has just entered the round
    (Precommits nil, CatchupCommitRound -1) runs PickVoteToSend on a commit
    vote-set of 4 validators at (10, 2): CatchupCommit first aliases the nil
    Precommits, then ensureVoteBitArrays allocates two distinct arrays. *)
Lemma catchup_alias_counterexample :
  let votes := mkVoteSetReader 10 2 VoteTypePrecommit 4 true
                 (mkBitArray 4 [true; true; true; false]) (fun _ => None) in
  exists st', PickVoteToSend (fun _ _ => None) votes (peer_at 10 2 RoundStepPrecommit)
              = Done (None, false, st') /\
              CatchupCommit (prs st') <> Precommits (prs st').
Proof.
  cbv zeta. eexists. split; [vm_compute; reflexivity|]. vm_compute. discriminate.
Qed.

(** C5 (amended): ensureCatchupCommitRound(H, r, n) changes nothing when the
    peer's Height is not H or its CatchupCommitRound already equals r;
    otherwise it sets CatchupCommitRound to r and CatchupCommit to the
    Precommits pointer itself when r equals the peer's Round, else to a
    freshly allocated cleared BitArray of size n (nil when n <= 0).  A peer at
    (10, 2) whose Precommits is a non-nil bit-array B and whose
    CatchupCommitRound is not 2 ends, after a PickVoteToSend of a non-empty
    commit vote-set at (10, 2), with CatchupCommit and Precommits both B. *)
Theorem ensureCatchupCommitRound_spec :
  (forall st h r n, Height (prs st) <> h -> ensureCatchupCommitRound h r n st = st) /\
  (forall st h r n, CatchupCommitRound (prs st) = r ->
     ensureCatchupCommitRound h r n st = st) /\
  (forall st h r n, Height (prs st) = h -> CatchupCommitRound (prs st) <> r ->
     Round (prs st) = r ->
     ensureCatchupCommitRound h r n st =
       mkPeerState (set_CatchupCommit (set_CatchupCommitRound (prs st) r)
                      (Precommits (prs st))) (mem st)) /\
  (forall st h r n, Height (prs st) = h -> CatchupCommitRound (prs st) <> r ->
     Round (prs st) <> r ->
     ensureCatchupCommitRound h r n st =
       let '(p, m) := NewBitArray n (mem st) in
       mkPeerState (set_CatchupCommit (set_CatchupCommitRound (prs st) r) p) m) /\
  (forall st pick votes b v ok st',
     Height (prs st) = 10 -> Round (prs st) = 2 ->
     Precommits (prs st) = Some b -> CatchupCommitRound (prs st) <> 2 ->
     vs_Height votes = 10 -> vs_Round votes = 2 -> vs_IsCommit votes = true ->
     vs_Size votes <> 0 ->
     PickVoteToSend pick votes st = Done (v, ok, st') ->
     CatchupCommit (prs st') = Some b /\ Precommits (prs st') = Some b).
Proof.
  split; [|split; [|split; [|split]]].
  - intros st h r n Hh. unfold ensureCatchupCommitRound.
    destruct (Z.eqb_spec (Height (prs st)) h); [contradiction|reflexivity].
  - intros st h r n Hc. unfold ensureCatchupCommitRound.
    destruct (Height (prs st) =? h); [|reflexivity]. simpl.
    rewrite Hc, Z.eqb_refl. reflexivity.
  - intros st h r n Hh Hc Hr. unfold ensureCatchupCommitRound.
    rewrite Hh, Z.eqb_refl. simpl.
    destruct (Z.eqb_spec (CatchupCommitRound (prs st)) r); [contradiction|].
    simpl. rewrite Hr, Z.eqb_refl. reflexivity.
  - intros st h r n Hh Hc Hr. unfold ensureCatchupCommitRound.
    rewrite Hh, Z.eqb_refl. simpl.
    destruct (Z.eqb_spec (CatchupCommitRound (prs st)) r); [contradiction|].
    simpl. destruct (Z.eqb_spec r (Round (prs st))); [lia|]. reflexivity.
  - intros st pick votes b v ok st' Hh Hr Hp Hc Hvh Hvr Hcommit Hsize E.
    unfold PickVoteToSend in E.
    apply Z.eqb_neq in Hsize. rewrite Hsize, Hcommit, Hvh, Hvr in E.
    set (st1 := ensureCatchupCommitRound 10 2 (vs_Size votes) st) in E.
    assert (H1 : Precommits (prs st1) = Some b /\ CatchupCommit (prs st1) = Some b).
    { subst st1. unfold ensureCatchupCommitRound. rewrite Hh, Z.eqb_refl. simpl.
      destruct (Z.eqb_spec (CatchupCommitRound (prs st)) 2); [contradiction|].
      simpl. rewrite Hr. simpl. rewrite Hp. auto. }
    destruct H1 as [H1p H1c].
    destruct (ensureVoteBitArrays_keeps_commit 10 (vs_Size votes) st1 b H1p H1c)
      as [H2p H2c].
    set (st2 := ensureVoteBitArrays 10 (vs_Size votes) st1) in *.
    destruct (getVoteBitArray (prs st2) 10 2 (vs_Type votes)) as [[l|]|]; [|..|discriminate].
    + destruct (pick _ _) as [index|].
      * destruct (setHasVote 10 2 (vs_Type votes) index st2) as [st3|] eqn:Es;
          [|discriminate].
        injection E as <- <- <-. apply setHasVote_prs in Es. rewrite Es. auto.
      * injection E as <- <- <-. auto.
    + injection E as <- <- <-. auto.
Qed.

Lemma ensureCatchupCommitRound_spec_witness :
  let votes := mkVoteSetReader 10 2 VoteTypePrecommit 4 true
                 (mkBitArray 4 [true; true; true; false]) (fun _ => None) in
  let st := peer_with_precommits 10 2 in
  exists st', PickVoteToSend (fun _ _ => Some 0%nat) votes st = Done (None, true, st') /\
              CatchupCommit (prs st') = Some 1%positive /\
              Precommits (prs st') = Some 1%positive.
Proof.
  cbv zeta. eexists. split; [vm_compute; reflexivity|].
  eapply (proj2 (proj2 (proj2 (proj2 ensureCatchupCommitRound_spec)))
            (peer_with_precommits 10 2) (fun _ _ => Some 0%nat)
            (mkVoteSetReader 10 2 VoteTypePrecommit 4 true
               (mkBitArray 4 [true; true; true; false]) (fun _ => None))
            1%positive None true).
  all: try reflexivity.
  all: vm_compute; intros Hx; discriminate Hx.
Defined.

(** ** C6 *)

(** C6 (code bug): GetRoundState copies the PeerRoundState struct only.
    Each bit-array field of the snapshot (ProposalBlockParts, ProposalPOL,
    Prevotes, Precommits, LastCommit, CatchupCommit) is the peer's own
    pointer, so when a caller sets an unset, in-range bit i through that
    field of the snapshot, the peer's own bit-array has bit i set afterwards
    and the PeerState differs from the one the snapshot was taken from. *)
Theorem GetRoundState_snapshot_aliases (st : PeerState)
    (field : PeerRoundState -> ptr) (i : nat) (l : loc) (ba : BitArray) :
  In field [ProposalBlockParts; ProposalPOL; Prevotes; Precommits;
            LastCommit; CatchupCommit] ->
  field (prs st) = Some l -> mem st !! l = Some ba ->
  Z.of_nat i < Bits ba -> (i < length (Elems ba))%nat ->
  GetIndex (field (prs st)) i (mem st) = false ->
  field (GetRoundState st) = field (prs st) /\
  GetIndex (field (prs st)) i (mem (mutate_snapshot st [OpSetIndex field i])) = true /\
  mutate_snapshot st [OpSetIndex field i] <> st.
Proof.
  intros _ Hf Hl Hi Hlen H0.
  assert (Hset : GetIndex (field (prs st)) i
                   (mem (mutate_snapshot st [OpSetIndex field i])) = true).
  { unfold mutate_snapshot, GetRoundState. simpl. rewrite Hf.
    eapply SetIndex_GetIndex; eauto. }
  split; [reflexivity|]. split; [exact Hset|].
  intros E. rewrite E in Hset. congruence.
Qed.

Lemma GetRoundState_snapshot_aliases_witness :
  let st := peer_with_precommits 10 3 in
  Precommits (GetRoundState st) = Precommits (prs st) /\
  GetIndex (Precommits (prs st)) 1
    (mem (mutate_snapshot st [OpSetIndex Precommits 1])) = true /\
  mutate_snapshot st [OpSetIndex Precommits 1] <> st.
Proof.
  apply (GetRoundState_snapshot_aliases (peer_with_precommits 10 3)
           Precommits 1 1%positive B3).
  - simpl. right; right; right; left. reflexivity.
  - reflexivity.
  - reflexivity.
  - vm_compute. reflexivity.
  - simpl. lia.
  - reflexivity.
Defined.

(** ** C7 *)

Section TxEventBufferProofs.
Variable E P : Type.
Variable pub : P -> E -> P * option string.

Lemma flush_loop_spec (p : P) (es : list E) :
  let '(_, sent, err) := flush_loop E P pub p es in
  (err = None -> sent = es) /\
  (err <> None -> sent <> [] /\ exists rest, es = sent ++ rest).
Proof.
  revert p. induction es as [|e es IH]; intros p; simpl.
  - split; [reflexivity | intros H; contradiction].
  - destruct (pub p e) as [p1 [err1|]].
    + split; [discriminate|]. intros _. split; [discriminate|]. exists es. reflexivity.
    + specialize (IH p1). destruct (flush_loop E P pub p1 es) as [[p2 sent] err].
      destruct IH as [IH1 IH2]. split.
      * intros H. rewrite (IH1 H). reflexivity.
      * intros H. split; [discriminate|]. destruct (IH2 H) as [_ [rest ->]].
        exists rest. reflexivity.
Qed.

Lemma publish_all_spec (es : list E) (b : TxEventBuffer E P) :
  publish_all E P es b = mkTxEventBuffer E P (next E P b) (events E P b ++ es).
Proof.
  revert b. induction es as [|e es IH]; intros b; simpl.
  - rewrite app_nil_r. destruct b; reflexivity.
  - rewrite IH. simpl. rewrite <- app_assoc. reflexivity.
Qed.
End TxEventBufferProofs.

(** C7: PublishEventTx only appends to the buffer and never calls the
    underlying publisher; Flush hands the buffered events to the publisher in
    insertion order, stopping at the first error, in which case the buffer
    keeps all its events (the undelivered rest included); after a complete
    successful Flush the buffer is empty, so a second Flush delivers
    nothing. *)
Theorem TxEventBuffer_flush (E P : Type) (pub : P -> E -> P * option string) :
  (forall es b, publish_all E P es b =
                mkTxEventBuffer E P (next E P b) (events E P b ++ es)) /\
  (forall b, let '(b', sent, err) := Flush E P pub b in
     match err with
     | None => sent = events E P b /\ events E P b' = []
     | Some _ => sent <> [] /\ (exists rest, events E P b = sent ++ rest) /\
                 events E P b' = events E P b
     end) /\
  (forall b b' sent, Flush E P pub b = (b', sent, None) ->
     Flush E P pub b' = (b', [], None)).
Proof.
  split; [apply publish_all_spec|]. split.
  - intros b. unfold Flush.
    pose proof (flush_loop_spec E P pub (next E P b) (events E P b)) as Hs.
    destruct (flush_loop E P pub (next E P b) (events E P b)) as [[p sent] [err|]].
    + destruct Hs as [_ Hs]. destruct (Hs ltac:(discriminate)) as [Hne Hpre].
      simpl. auto.
    + destruct Hs as [Hs _]. simpl. auto.
  - intros b b' sent. unfold Flush.
    destruct (flush_loop E P pub (next E P b) (events E P b)) as [[p s] [err|]];
      intros H; [discriminate|]. injection H as <- <-. reflexivity.
Qed.

(** The spec's scenario: three events published, nothing delivered until
    Flush, which delivers them in order; a second Flush delivers nothing. *)
Definition log_pub (log : list nat) (e : nat) : list nat * option string :=
  (log ++ [e], None).

Lemma TxEventBuffer_flush_witness :
  let b := publish_all nat (list nat) [1; 2; 3]%nat (NewTxEventBuffer nat (list nat) []) in
  next nat (list nat) b = [] /\
  Flush nat (list nat) log_pub b =
    (mkTxEventBuffer nat (list nat) [1; 2; 3]%nat [], [1; 2; 3]%nat, None) /\
  Flush nat (list nat) log_pub (mkTxEventBuffer nat (list nat) [1; 2; 3]%nat []) =
    (mkTxEventBuffer nat (list nat) [1; 2; 3]%nat [], [], None).
Proof.
  cbv zeta. split; [reflexivity|]. split; [reflexivity|].
  apply (proj2 (proj2 (TxEventBuffer_flush nat (list nat) log_pub))
           (publish_all nat (list nat) [1; 2; 3]%nat (NewTxEventBuffer nat (list nat) []))
           _ [1; 2; 3]%nat).
  reflexivity.
Defined.

(** ** C3 *)

(** C3 (code bug): on the empty byte string DecodeMessage evaluates
    [bz[0]] before anything else and panics with an index out of range. *)
Theorem DecodeMessage_empty_panics (ConsensusMessage : Type)
    (decodeBody : Byte.byte -> list Byte.byte -> option ConsensusMessage) :
  DecodeMessage ConsensusMessage decodeBody [] =
    Panicked "runtime error: index out of range".
Proof. reflexivity. Qed.

(** On non-empty input the decoder does not panic, and an over-length frame
    or an unknown type byte yields an error and no message. *)
Lemma DecodeMessage_nonempty (ConsensusMessage : Type)
    (decodeBody : Byte.byte -> list Byte.byte -> option ConsensusMessage)
    (t : Byte.byte) (body : list Byte.byte) :
  (maxConsensusMessageSize < Z.of_nat (length (t :: body)) \/ is_registered t = false) ->
  exists err, DecodeMessage ConsensusMessage decodeBody (t :: body) = Done (t, None, Some err).
Proof.
  intros H. unfold DecodeMessage, ReadBinary.
  destruct (maxConsensusMessageSize <? Z.of_nat (length (t :: body))) eqn:E.
  - eexists; reflexivity.
  - destruct H as [H|H]; [apply Z.ltb_ge in E; lia|]. rewrite H. eexists; reflexivity.
Qed.

(** ** C8 *)

(** C8: when subscribing succeeds, CheckTx returns OK and no block includes
    the transaction before the timer fires, BroadcastTxCommit has subscribed
    with a 10 ms context timeout, started a 120 s timer, and returns a
    non-nil error with a result carrying the CheckTx result and a zero
    DeliverTx. *)
Theorem BroadcastTxCommit_timeout (env : Env) (txHash : list Byte.byte)
    (checkTxR : ABCIResult) :
  env_Subscribe env subscribeTimeoutMs = None ->
  env_CheckTx env = inr checkTxR ->
  res_Code checkTxR = CodeType_OK ->
  env_Select env commitTimeoutMs = None ->
  subscribeTimeoutMs = 10 /\ commitTimeoutMs = 120000 /\
  exists err,
    BroadcastTxCommit env txHash =
      ([EffSubscribe 10; EffCheckTx; EffStartTimer 120000; EffUnsubscribe],
       Some (mkResultBroadcastTxCommit checkTxR zeroResult txHash 0), Some err).
Proof.
  intros Hs Hc Hok Hsel. split; [reflexivity|]. split; [reflexivity|].
  unfold BroadcastTxCommit. rewrite Hs, Hc, Hok, Hsel. simpl.
  eexists; reflexivity.
Qed.

Definition env_no_block : Env :=
  mkEnv (fun _ => None) (inr (mkABCIResult 0 [] "")) (fun _ => None).

Lemma BroadcastTxCommit_timeout_witness :
  exists err,
    BroadcastTxCommit env_no_block [] =
      ([EffSubscribe 10; EffCheckTx; EffStartTimer 120000; EffUnsubscribe],
       Some (mkResultBroadcastTxCommit (mkABCIResult 0 [] "") zeroResult [] 0), Some err).
Proof.
  apply (BroadcastTxCommit_timeout env_no_block [] (mkABCIResult 0 [] ""));
    reflexivity.
Defined.

(** ** C9 *)

(** C9 (counterexample): a peer at round -1 in step Propose, with no POL
    round, against a local round 0, when every send succeeds: the stated
    order tries prevotes at round -1 and returns true, the code tries nothing
    and returns false. *)
Definition peer_round_unknown : PeerRoundState :=
  mkPRS 5 (-1) RoundStepPropose 0 false EmptyPartSetHeader None (-1) None
        None None (-1) None (-1) None.

Definition rs_round0 : RoundState unit :=
  mkRoundState unit 5 0 (fun _ => Some tt) (fun _ => Some tt) (Some tt).

Lemma gossipVotesForHeight_counterexample :
  gossipVotesForHeight unit unit (fun s _ => (s, true)) rs_round0 peer_round_unknown tt
    = (tt, [], false) /\
  first_success unit unit (fun s _ => (s, true))
    (spec_candidates unit rs_round0 peer_round_unknown) tt []
    = (tt, [AttPrevotes (-1)], true).
Proof. split; reflexivity. Qed.

(** C9 (amended): gossipVotesForHeight tries, in this order and until the
    first successful send, LastCommit if prs.Step = NewHeight; prevotes at
    prs.Round if prs.Step <= Prevote, prs.Round <> -1 and prs.Round <=
    rs.Round; precommits at prs.Round if prs.Step <= Precommit, prs.Round <>
    -1 and prs.Round <= rs.Round; the prevotes of prs.ProposalPOLRound if it
    is not -1 and that vote set is non-nil; it returns true exactly when a
    send succeeded. *)
Theorem gossipVotesForHeight_order (VoteSet S : Type)
    (PickSendVote : S -> option VoteSet -> S * bool)
    (rs : RoundState VoteSet) (p : PeerRoundState) (s : S) :
  gossipVotesForHeight VoteSet S PickSendVote rs p s =
  first_success VoteSet S PickSendVote (amended_candidates VoteSet rs p) s [].
Proof.
  unfold gossipVotesForHeight, amended_candidates.
  destruct (Step p =? RoundStepNewHeight);
  destruct ((Step p <=? RoundStepPrevote) && negb (Round p =? -1) && (Round p <=? rs_Round VoteSet rs));
  destruct ((Step p <=? RoundStepPrecommit) && negb (Round p =? -1) && (Round p <=? rs_Round VoteSet rs));
  destruct (negb (ProposalPOLRound p =? -1));
  try destruct (rs_Prevotes VoteSet rs (ProposalPOLRound p));
  simpl;
  repeat match goal with
         | |- context [PickSendVote ?s ?v] =>
             destruct (PickSendVote s v) as [? []]; simpl
         end; reflexivity.
Qed.

(* ================================================================== *)
(** * Further properties of the peer state, [Receive], the event bus and
      the RPC helpers *)

Lemma NewBitArray_nonpos n (h : heap) : n <= 0 -> NewBitArray n h = (None, h).
Proof. intros Hn. unfold NewBitArray. destruct (n <=? 0) eqn:E; [reflexivity|]. apply Z.leb_gt in E. lia. Qed.

Lemma NewBitArray_subseteq n (h : heap) : h ⊆ snd (NewBitArray n h).
Proof.
  destruct (Z_le_gt_dec n 0) as [Hn|Hn].
  - rewrite NewBitArray_nonpos by exact Hn. reflexivity.
  - destruct (NewBitArray_fresh n h ltac:(lia)) as (l & -> & Hl). simpl.
    apply insert_subseteq. exact Hl.
Qed.

Lemma ensure_field_subseteq get set n st : mem st ⊆ mem (ensure_field get set n st).
Proof.
  unfold ensure_field. destruct (get (prs st)); [reflexivity|].
  pose proof (NewBitArray_subseteq n (mem st)) as Hs.
  destruct (NewBitArray n (mem st)). exact Hs.
Qed.

(** A field is settled once it is non-nil, or when [numValidators <= 0]
    ([NewBitArray] then yields nil again). *)
Definition settled (get : PeerRoundState -> ptr) (n : Z) (st : PeerState) : Prop :=
  get (prs st) <> None \/ n <= 0.

Lemma ensure_field_id get set n st :
  settled get n st -> (forall p, set p (get p) = p) -> ensure_field get set n st = st.
Proof.
  intros [Hs|Hn] Hsg; unfold ensure_field.
  - destruct (get (prs st)); [reflexivity|congruence].
  - destruct (get (prs st)) eqn:E; [reflexivity|].
    rewrite NewBitArray_nonpos by exact Hn. rewrite <- E, Hsg. destruct st; reflexivity.
Qed.

Lemma ensure_field_settles get set n st :
  (forall p v, get (set p v) = v) -> settled get n (ensure_field get set n st).
Proof.
  intros Hgs. unfold settled, ensure_field.
  destruct (get (prs st)) eqn:E; [left; congruence|].
  destruct (Z_le_gt_dec n 0) as [Hn|Hn]; [right; exact Hn|left].
  destruct (NewBitArray_fresh n (mem st) ltac:(lia)) as (l & -> & _). simpl.
  rewrite Hgs. discriminate.
Qed.

Lemma settled_keeps get set n st g :
  (forall p v, g (set p v) = g p) -> settled g n st -> settled g n (ensure_field get set n st).
Proof. intros Hg. unfold settled. rewrite (ensure_field_keeps get set n st g Hg). auto. Qed.

Lemma ensure_field_Height get set n st :
  (forall p v, Height (set p v) = Height p) ->
  Height (prs (ensure_field get set n st)) = Height (prs st).
Proof.
  intros Hs. unfold ensure_field. destruct (get (prs st)); [reflexivity|].
  destruct (NewBitArray n (mem st)). apply Hs.
Qed.

Ltac field_facts := intros; reflexivity || (match goal with p : PeerRoundState |- _ => destruct p; reflexivity end).

(** [ensureVoteBitArrays] is idempotent: a second call with the same height
    and size allocates nothing and changes nothing. *)
Theorem ensureVoteBitArrays_idempotent (h n : Z) (st : PeerState) :
  ensureVoteBitArrays h n (ensureVoteBitArrays h n st) = ensureVoteBitArrays h n st.
Proof.
  unfold ensureVoteBitArrays at 2.
  destruct (Height (prs st) =? h) eqn:Eh; [|destruct (Height (prs st) =? h + 1) eqn:Eh1].
  - set (s1 := ensure_field Prevotes set_Prevotes n st).
    set (s2 := ensure_field Precommits set_Precommits n s1).
    set (s3 := ensure_field CatchupCommit set_CatchupCommit n s2).
    set (s4 := ensure_field ProposalPOL set_ProposalPOL n s3).
    assert (HP : settled Prevotes n s4).
    { apply settled_keeps; [field_facts|]. apply settled_keeps; [field_facts|].
      apply settled_keeps; [field_facts|]. apply ensure_field_settles; field_facts. }
    assert (HC : settled Precommits n s4).
    { apply settled_keeps; [field_facts|]. apply settled_keeps; [field_facts|].
      apply ensure_field_settles; field_facts. }
    assert (HK : settled CatchupCommit n s4).
    { apply settled_keeps; [field_facts|]. apply ensure_field_settles; field_facts. }
    assert (HO : settled ProposalPOL n s4) by (apply ensure_field_settles; field_facts).
    assert (HH : Height (prs s4) = Height (prs st)).
    { subst s4 s3 s2 s1. rewrite !ensure_field_Height by field_facts. reflexivity. }
    unfold ensureVoteBitArrays. rewrite HH, Eh.
    rewrite (ensure_field_id Prevotes set_Prevotes n s4 HP) by field_facts.
    rewrite (ensure_field_id Precommits set_Precommits n s4 HC) by field_facts.
    rewrite (ensure_field_id CatchupCommit set_CatchupCommit n s4 HK) by field_facts.
    rewrite (ensure_field_id ProposalPOL set_ProposalPOL n s4 HO) by field_facts.
    reflexivity.
  - set (s1 := ensure_field LastCommit set_LastCommit n st).
    assert (HL : settled LastCommit n s1) by (apply ensure_field_settles; field_facts).
    assert (HH : Height (prs s1) = Height (prs st)).
    { subst s1. rewrite !ensure_field_Height by field_facts. reflexivity. }
    unfold ensureVoteBitArrays. rewrite HH, Eh, Eh1.
    rewrite (ensure_field_id LastCommit set_LastCommit n s1 HL) by field_facts.
    reflexivity.
  - unfold ensureVoteBitArrays. rewrite Eh, Eh1. reflexivity.
Qed.

Lemma ensure_field_keeps_some get set n st (f : PeerRoundState -> ptr) l :
  (f = get \/ forall p v, f (set p v) = f p) ->
  f (prs st) = Some l -> f (prs (ensure_field get set n st)) = Some l.
Proof.
  intros [->|Hf] Hl.
  - rewrite (ensure_field_some get set n st l Hl). exact Hl.
  - rewrite (ensure_field_keeps get set n st f Hf). exact Hl.
Qed.

Ltac keep_some :=
  repeat (apply ensure_field_keeps_some; [first [left; reflexivity | right; field_facts] |]).

Lemma ensureVoteBitArrays_subseteq h n st : mem st ⊆ mem (ensureVoteBitArrays h n st).
Proof.
  unfold ensureVoteBitArrays.
  destruct (Height (prs st) =? h); [|destruct (Height (prs st) =? h + 1)].
  - etrans; [|apply ensure_field_subseteq]. etrans; [|apply ensure_field_subseteq].
    etrans; [|apply ensure_field_subseteq]. apply ensure_field_subseteq.
  - apply ensure_field_subseteq.
  - reflexivity.
Qed.

Lemma ensureVoteBitArrays_keeps_some h n st f l :
  In f [Prevotes; Precommits; CatchupCommit; ProposalPOL; LastCommit; ProposalBlockParts] ->
  f (prs st) = Some l -> f (prs (ensureVoteBitArrays h n st)) = Some l.
Proof.
  intros Hin Hl. unfold ensureVoteBitArrays.
  destruct (Height (prs st) =? h); [|destruct (Height (prs st) =? h + 1)]; [| |exact Hl];
  simpl in Hin; repeat (destruct Hin as [<-|Hin]; [keep_some; exact Hl|]); contradiction.
Qed.

(** Pointer [f] of the peer points to the array [ba]. *)
Definition pts (f : PeerRoundState -> ptr) (l : loc) (ba : BitArray) (st : PeerState) : Prop :=
  f (prs st) = Some l /\ mem st !! l = Some ba.

Lemma ensureVoteBitArrays_pts h n st f l ba :
  In f [Prevotes; Precommits; CatchupCommit; ProposalPOL; LastCommit; ProposalBlockParts] ->
  pts f l ba st -> pts f l ba (ensureVoteBitArrays h n st).
Proof.
  intros Hin [Hf Hm]. split; [apply ensureVoteBitArrays_keeps_some; assumption|].
  eapply lookup_weaken; [exact Hm|]. apply ensureVoteBitArrays_subseteq.
Qed.

Lemma ensure_field_pts get set n st f l ba :
  (f = get \/ forall p v, f (set p v) = f p) ->
  pts f l ba st -> pts f l ba (ensure_field get set n st).
Proof.
  intros Hf [Hl Hm]. split; [apply ensure_field_keeps_some; assumption|].
  eapply lookup_weaken; [exact Hm|]. apply ensure_field_subseteq.
Qed.

Lemma ensure_field_alloc get set n st :
  get (prs st) = None -> 0 < n -> (forall p v, get (set p v) = v) ->
  exists l, pts get l (mkBitArray n (repeat false (Z.to_nat n))) (ensure_field get set n st).
Proof.
  intros Hg Hn Hgs. unfold ensure_field. rewrite Hg.
  destruct (NewBitArray_fresh n (mem st) Hn) as (l & -> & _).
  exists l. split; simpl; [rewrite Hgs; reflexivity | apply lookup_insert_eq].
Qed.

(** With [numValidators > 0], a nil Prevotes or Precommits of a peer at the
    given height gets a fresh cleared array of that size. *)
Lemma ensureVoteBitArrays_alloc_votes h n st f :
  Height (prs st) = h -> 0 < n -> (f = Prevotes \/ f = Precommits) -> f (prs st) = None ->
  exists l, pts f l (mkBitArray n (repeat false (Z.to_nat n))) (ensureVoteBitArrays h n st).
Proof.
  intros Hh Hn Hf Hnone. unfold ensureVoteBitArrays. rewrite Hh, Z.eqb_refl.
  destruct Hf as [->| ->].
  - destruct (ensure_field_alloc Prevotes set_Prevotes n st Hnone Hn ltac:(field_facts)) as [l Hl].
    exists l. repeat (apply ensure_field_pts; [right; field_facts|]). exact Hl.
  - set (s1 := ensure_field Prevotes set_Prevotes n st).
    assert (H1 : Precommits (prs s1) = None).
    { subst s1. rewrite ensure_field_keeps by field_facts. exact Hnone. }
    destruct (ensure_field_alloc Precommits set_Precommits n s1 H1 Hn ltac:(field_facts)) as [l Hl].
    exists l. repeat (apply ensure_field_pts; [right; field_facts|]). exact Hl.
Qed.

(** [ensureVoteBitArrays] only allocates: the heap only grows, a bit-array
    pointer that is already set is kept, and with [numValidators > 0] it
    leaves Prevotes, Precommits, CatchupCommit and ProposalPOL non-nil for
    the peer's own height, and LastCommit non-nil for the height below. *)
Theorem ensureVoteBitArrays_allocates (h n : Z) (st : PeerState) :
  let st' := ensureVoteBitArrays h n st in
  mem st ⊆ mem st' /\
  Forall (fun f => forall l, f (prs st) = Some l -> f (prs st') = Some l)
         [Prevotes; Precommits; CatchupCommit; ProposalPOL; LastCommit; ProposalBlockParts] /\
  (0 < n -> Height (prs st) = h ->
   Prevotes (prs st') <> None /\ Precommits (prs st') <> None /\
   CatchupCommit (prs st') <> None /\ ProposalPOL (prs st') <> None) /\
  (0 < n -> Height (prs st) = h + 1 -> LastCommit (prs st') <> None).
Proof.
  cbv zeta. split; [|split; [|split]].
  - apply ensureVoteBitArrays_subseteq.
  - apply List.Forall_forall. intros f Hin l Hl.
    apply ensureVoteBitArrays_keeps_some; [exact Hin | exact Hl].
  - intros Hn Hh. unfold ensureVoteBitArrays. rewrite Hh, Z.eqb_refl.
    set (s1 := ensure_field Prevotes set_Prevotes n st).
    set (s2 := ensure_field Precommits set_Precommits n s1).
    set (s3 := ensure_field CatchupCommit set_CatchupCommit n s2).
    assert (HP : settled Prevotes n s1) by (apply ensure_field_settles; field_facts).
    assert (HC : settled Precommits n s2) by (apply ensure_field_settles; field_facts).
    assert (HK : settled CatchupCommit n s3) by (apply ensure_field_settles; field_facts).
    assert (HO : settled ProposalPOL n (ensure_field ProposalPOL set_ProposalPOL n s3))
      by (apply ensure_field_settles; field_facts).
    unfold settled in *.
    destruct HP as [HP|]; [|lia]. destruct HC as [HC|]; [|lia].
    destruct HK as [HK|]; [|lia]. destruct HO as [HO|]; [|lia].
    destruct (Prevotes (prs s1)) as [l1|] eqn:E1; [|congruence].
    destruct (Precommits (prs s2)) as [l2|] eqn:E2; [|congruence].
    destruct (CatchupCommit (prs s3)) as [l3|] eqn:E3; [|congruence].
    split; [|split; [|split]].
    + erewrite (ensure_field_keeps_some _ _ _ _ Prevotes l1); [discriminate| right; field_facts|].
      subst s3. erewrite (ensure_field_keeps_some _ _ _ _ Prevotes l1); [reflexivity| right; field_facts|].
      subst s2. erewrite (ensure_field_keeps_some _ _ _ _ Prevotes l1); [reflexivity| right; field_facts|].
      exact E1.
    + erewrite (ensure_field_keeps_some _ _ _ _ Precommits l2); [discriminate| right; field_facts|].
      subst s3. erewrite (ensure_field_keeps_some _ _ _ _ Precommits l2); [reflexivity| right; field_facts|].
      exact E2.
    + erewrite (ensure_field_keeps_some _ _ _ _ CatchupCommit l3); [discriminate| right; field_facts|].
      exact E3.
    + exact HO.
  - intros Hn Hh. unfold ensureVoteBitArrays. rewrite Hh.
    replace (h + 1 =? h) with false by (symmetry; apply Z.eqb_neq; lia). rewrite Z.eqb_refl.
    pose proof (ensure_field_settles LastCommit set_LastCommit n st ltac:(field_facts)) as [H|H];
      [exact H|lia].
Qed.

(** [SetHasProposal] on a peer at the proposal's (Height, Round) that has no
    proposal yet: it records the proposal, its part-set header and POL
    round, clears ProposalPOL, leaves the vote bit-arrays alone, and points
    ProposalBlockParts to a freshly allocated array of [Total] cleared bits
    (nil when [Total <= 0]); the heap only grows. *)
Theorem SetHasProposal_sets (st : PeerState) (h r : Z) (hdr : PartSetHeader) (pol : Z) :
  Height (prs st) = h -> Round (prs st) = r -> Proposal (prs st) = false ->
  let p' := prs (SetHasProposal h r hdr pol st) in
  let m' := mem (SetHasProposal h r hdr pol st) in
  Proposal p' = true /\ ProposalBlockPartsHeader p' = hdr /\
  ProposalPOLRound p' = pol /\ ProposalPOL p' = None /\
  Prevotes p' = Prevotes (prs st) /\ Precommits p' = Precommits (prs st) /\
  LastCommit p' = LastCommit (prs st) /\ CatchupCommit p' = CatchupCommit (prs st) /\
  mem st ⊆ m' /\
  (Total hdr <= 0 -> ProposalBlockParts p' = None) /\
  (0 < Total hdr -> exists l, ProposalBlockParts p' = Some l /\ mem st !! l = None /\
     m' !! l = Some (mkBitArray (Total hdr) (repeat false (Z.to_nat (Total hdr))))).
Proof.
  intros Hh Hr Hp. unfold SetHasProposal.
  rewrite Hh, Hr, !Z.eqb_refl, Hp. simpl.
  pose proof (NewBitArray_subseteq (Total hdr) (mem st)) as Hsub.
  destruct (Z_le_gt_dec (Total hdr) 0) as [Ht|Ht].
  - rewrite NewBitArray_nonpos in * by exact Ht. simpl in *.
    repeat split; auto; intros; lia.
  - destruct (NewBitArray_fresh (Total hdr) (mem st) ltac:(lia)) as (l & E & Hl).
    rewrite E in *. simpl in *. repeat split; auto; [lia|].
    intros _. exists l. split; [reflexivity|]. split; [exact Hl|].
    apply lookup_insert_eq.
Qed.

(** The first proposal wins: once [SetHasProposal] has run for (H, R), a
    second call for the same (H, R), whatever its header and POL round,
    changes nothing. *)
Theorem SetHasProposal_first_wins (st : PeerState) (h r : Z)
    (hdr hdr' : PartSetHeader) (pol pol' : Z) :
  SetHasProposal h r hdr' pol' (SetHasProposal h r hdr pol st) = SetHasProposal h r hdr pol st.
Proof.
  remember (SetHasProposal h r hdr pol st) as X eqn:HX.
  unfold SetHasProposal in HX.
  destruct (negb (Height (prs st) =? h) || negb (Round (prs st) =? r)) eqn:E.
  - subst X. unfold SetHasProposal. rewrite E. reflexivity.
  - destruct (Proposal (prs st)) eqn:Ep.
    + subst X. unfold SetHasProposal. rewrite E, Ep. reflexivity.
    + destruct (NewBitArray (Total hdr) (mem st)) as [p m]. subst X.
      unfold SetHasProposal. simpl.
      destruct (Height (prs st) =? h), (Round (prs st) =? r); simpl in *;
        try discriminate; reflexivity.
Qed.

Lemma length_repeat_false n : length (repeat false n) = n.
Proof. apply repeat_length. Qed.

(** The data-gossip sequence: after [SetHasProposal] on a peer at the
    proposal's (H, R) without a proposal, [SetHasProposalBlockPart] for the
    same (H, R) and an index below the header's [Total] records that part. *)
Theorem SetHasProposalBlockPart_after_proposal (st : PeerState) (h r : Z)
    (hdr : PartSetHeader) (pol : Z) (i : nat) :
  Height (prs st) = h -> Round (prs st) = r -> Proposal (prs st) = false ->
  Z.of_nat i < Total hdr ->
  let st' := SetHasProposalBlockPart h r i (SetHasProposal h r hdr pol st) in
  GetIndex (ProposalBlockParts (prs st')) i (mem st') = true.
Proof.
  intros Hh Hr Hp Hi. cbv zeta. subst h r.
  unfold SetHasProposal. rewrite !Z.eqb_refl, Hp. simpl.
  destruct (NewBitArray_fresh (Total hdr) (mem st) ltac:(lia)) as (l & E & Hl).
  rewrite E. unfold SetHasProposalBlockPart. simpl. rewrite ?Z.eqb_refl. simpl.
  eapply SetIndex_GetIndex; [apply lookup_insert_eq| simpl; exact Hi |].
  simpl. rewrite repeat_length. lia.
Qed.

(** A HasVoteMessage is only applied at the peer's own height: for a peer
    at H+1 whose LastCommitRound is R, a HasVote(H, R, Precommit, i) is
    dropped, while SetHasVote of the same vote would mark bit i of
    LastCommit. *)
Theorem ApplyHasVoteMessage_previous_height (st : PeerState) (h r : Z) (i : nat) :
  Height (prs st) = h + 1 -> LastCommitRound (prs st) = r ->
  ApplyHasVoteMessage h r VoteTypePrecommit i st = Done st /\
  SetHasVote (mkVote h r VoteTypePrecommit i) st =
    Done (mkPeerState (prs st) (SetIndex (LastCommit (prs st)) i (mem st))).
Proof.
  intros Hh Hr. split.
  - unfold ApplyHasVoteMessage. rewrite Hh.
    replace (h + 1 =? h) with false by (symmetry; apply Z.eqb_neq; lia). reflexivity.
  - unfold SetHasVote, setHasVote, getVoteBitArray. simpl. rewrite Hh, Hr.
    replace (h + 1 =? h) with false by (symmetry; apply Z.eqb_neq; lia).
    rewrite !Z.eqb_refl. reflexivity.
Qed.

Lemma CompareHRS_round_gt h r1 r2 s1 s2 :
  r2 < r1 -> CompareHRS h r1 s1 h r2 s2 = 1.
Proof.
  intros Hr. unfold CompareHRS. rewrite Z.ltb_irrefl.
  replace (r1 <? r2) with false by (symmetry; apply Z.ltb_ge; lia).
  replace (r2 <? r1) with true by (symmetry; apply Z.ltb_lt; lia). reflexivity.
Qed.

(** A peer that moves, within its height, to the round of its catch-up
    commit keeps that commit as its Precommits (the very same bit-array),
    keeps CatchupCommit and CatchupCommitRound, LastCommit and
    LastCommitRound, and forgets the proposal and the prevotes. *)
Theorem ApplyNewRoundStepMessage_catchup (now : Z) (msg : NRS.t) (st : PeerState) :
  NRS.Height msg = Height (prs st) -> Round (prs st) < NRS.Round msg ->
  NRS.Round msg = CatchupCommitRound (prs st) ->
  let p := prs (ApplyNewRoundStepMessage now msg st) in
  Precommits p = CatchupCommit (prs st) /\ CatchupCommit p = CatchupCommit (prs st) /\
  CatchupCommitRound p = CatchupCommitRound (prs st) /\
  Round p = NRS.Round msg /\ Step p = NRS.Step msg /\
  Prevotes p = None /\ Proposal p = false /\ ProposalBlockParts p = None /\
  ProposalPOLRound p = -1 /\ ProposalPOL p = None /\
  LastCommit p = LastCommit (prs st) /\ LastCommitRound p = LastCommitRound (prs st).
Proof.
  intros Hh Hr Hc. unfold ApplyNewRoundStepMessage.
  rewrite Hh, CompareHRS_round_gt by exact Hr. simpl.
  rewrite Z.eqb_refl. replace (Round (prs st) =? NRS.Round msg) with false
    by (symmetry; apply Z.eqb_neq; lia).
  rewrite Hc, Z.eqb_refl. simpl. repeat split.
Qed.

(** Within a (Height, Round), a NewRoundStep with a greater step only
    updates Step and StartTime: the proposal, every bit-array pointer and
    the heap are kept.  StartTime is [now] plus the int64 duration
    [-1 * secs * time.Second]; when [|secs| * time.Second] fits in an int64
    nothing wraps and StartTime is [now - secs * time.Second]. *)
Theorem ApplyNewRoundStepMessage_step_only (now : Z) (msg : NRS.t) (st : PeerState) :
  NRS.Height msg = Height (prs st) -> NRS.Round msg = Round (prs st) ->
  Step (prs st) < NRS.Step msg ->
  ApplyNewRoundStepMessage now msg st =
    with_prs st (set_StartTime (set_Step (prs st) (NRS.Step msg))
      (now + wrap64 (wrap64 (-1 * NRS.SecondsSinceStartTime msg) * Second))) /\
  (Z.abs (NRS.SecondsSinceStartTime msg) * Second < 2 ^ 63 ->
   StartTime (prs (ApplyNewRoundStepMessage now msg st)) =
     now - NRS.SecondsSinceStartTime msg * Second).
Proof.
  intros Hh Hr Hs.
  assert (Hc : CompareHRS (NRS.Height msg) (NRS.Round msg) (NRS.Step msg)
                 (Height (prs st)) (Round (prs st)) (Step (prs st)) = 1).
  { rewrite Hh, Hr. unfold CompareHRS. rewrite !Z.ltb_irrefl.
    replace (NRS.Step msg <? Step (prs st)) with false by (symmetry; apply Z.ltb_ge; lia).
    replace (Step (prs st) <? NRS.Step msg) with true by (symmetry; apply Z.ltb_lt; lia).
    reflexivity. }
  assert (Heq : ApplyNewRoundStepMessage now msg st =
    with_prs st (set_StartTime (set_Step (prs st) (NRS.Step msg))
      (now + wrap64 (wrap64 (-1 * NRS.SecondsSinceStartTime msg) * Second)))).
  { unfold ApplyNewRoundStepMessage.
    rewrite Hc. simpl. rewrite Hh, Hr, !Z.eqb_refl. simpl.
    destruct st as [[] m]; simpl in *. subst. reflexivity. }
  split; [exact Heq|]. intros Hb. rewrite Heq. simpl.
  apply wrap64_duration. exact Hb.
Qed.

(** The bit-array pointers of a peer round state. *)
Definition ptrs (p : PeerRoundState) : list ptr :=
  [ProposalBlockParts p; ProposalPOL p; Prevotes p; Precommits p; LastCommit p;
   CatchupCommit p].

(** [ApplyNewRoundStepMessage] never allocates nor writes a bit-array: the
    heap is unchanged, and every bit-array pointer it leaves is nil or one
    the peer already held. *)
Theorem ApplyNewRoundStepMessage_no_alloc (now : Z) (msg : NRS.t) (st : PeerState) :
  let st' := ApplyNewRoundStepMessage now msg st in
  mem st' = mem st /\
  (forall x, In x (ptrs (prs st')) -> x = None \/ In x (ptrs (prs st))).
Proof.
  cbv zeta. unfold ApplyNewRoundStepMessage.
  destruct (_ <=? 0).
  - split; [reflexivity|]. intros x Hx. right. exact Hx.
  - cbn zeta.
    destruct (negb _ || negb _); destruct (_ && _ && _); destruct (negb _);
      try destruct (_ && _); simpl; (split; [reflexivity|]);
      intros x Hx; simpl in Hx; unfold ptrs; simpl;
      repeat (destruct Hx as [Hx|Hx]; [subst x; tauto|]); contradiction.
Qed.

Lemma SetIndex_GetIndex_after l i (h : heap) ba :
  SetIndex (Some l) i h !! l = Some ba -> Z.of_nat i < Bits ba ->
  (i < length (Elems ba))%nat ->
  GetIndex (Some l) i (SetIndex (Some l) i h) = true.
Proof.
  intros Hl Hi Hlen. unfold SetIndex in Hl.
  destruct (h !! l) as [ba0|] eqn:E0; [|congruence].
  destruct (Bits ba0 <=? Z.of_nat i) eqn:Eb.
  - rewrite E0 in Hl. injection Hl as ->. apply Z.leb_le in Eb. lia.
  - rewrite lookup_insert_eq in Hl. injection Hl as <-. simpl in *.
    rewrite length_insert in Hlen.
    apply (SetIndex_GetIndex l i h ba0 E0); [apply Z.leb_gt; exact Eb | exact Hlen].
Qed.

(** When [PickVoteToSend] reports a vote as picked, the vote is the one at
    the picked validator index, and that index is marked in the peer's
    bit-array for the vote-set's (Height, Round, Type) (when the index lies
    within the array). *)
Theorem PickVoteToSend_sent (pickRandomSub : BitArray -> BitArray -> option nat)
    (votes : VoteSetReader) (st : PeerState) (v : option Vote) (st' : PeerState) :
  PickVoteToSend pickRandomSub votes st = Done (v, true, st') ->
  exists index l,
    v = vs_GetByIndex votes index /\
    getVoteBitArray (prs st') (vs_Height votes) (vs_Round votes) (vs_Type votes) = Done (Some l) /\
    (forall ba, mem st' !! l = Some ba -> Z.of_nat index < Bits ba ->
       (index < length (Elems ba))%nat -> GetIndex (Some l) index (mem st') = true).
Proof.
  unfold PickVoteToSend. destruct (vs_Size votes =? 0); [discriminate|].
  set (st2 := ensureVoteBitArrays _ _ _).
  destruct (getVoteBitArray (prs st2) (vs_Height votes) (vs_Round votes) (vs_Type votes))
    as [[l|]|] eqn:Eg; [|discriminate|discriminate].
  destruct (pickRandomSub _ _) as [index|]; [|discriminate].
  unfold setHasVote. rewrite Eg. intros E. injection E as <- <-.
  exists index, l. split; [reflexivity|]. split; [exact Eg|].
  intros ba Hl Hi Hlen. simpl in *. eapply SetIndex_GetIndex_after; eauto.
Qed.

(** When [PickVoteToSend] of a non-empty vote-set picks nothing, its only
    effect is the lazy allocation of the peer's bit-arrays. *)
Theorem PickVoteToSend_not_sent (pickRandomSub : BitArray -> BitArray -> option nat)
    (votes : VoteSetReader) (st : PeerState) (v : option Vote) (st' : PeerState) :
  vs_Size votes <> 0 ->
  PickVoteToSend pickRandomSub votes st = Done (v, false, st') ->
  v = None /\
  st' = ensureVoteBitArrays (vs_Height votes) (vs_Size votes)
          (if vs_IsCommit votes
           then ensureCatchupCommitRound (vs_Height votes) (vs_Round votes) (vs_Size votes) st
           else st).
Proof.
  intros Hs. unfold PickVoteToSend. apply Z.eqb_neq in Hs. rewrite Hs.
  set (st2 := ensureVoteBitArrays _ _ _).
  destruct (getVoteBitArray (prs st2) (vs_Height votes) (vs_Round votes) (vs_Type votes))
    as [[l|]|] eqn:Eg; [| |discriminate].
  - destruct (pickRandomSub _ _) as [index|].
    + unfold setHasVote. rewrite Eg. discriminate.
    + intros E. injection E as <- <-. auto.
  - intros E. injection E as <- <-. auto.
Qed.

Lemma byte_eqb_neq (a b : Byte.byte) : a <> b -> Byte.eqb a b = false.
Proof.
  intros Hne. destruct (Byte.eqb a b) eqn:E; [|reflexivity].
  apply Byte.byte_dec_bl in E. contradiction.
Qed.

(** [Receive] drops the message and leaves the peer unchanged when the
    reactor is not running, when decoding fails, on the data, vote and
    vote-set-bits channels while fast-syncing, and on an unknown channel;
    an empty message panics at [msgBytes[0]]. *)
Theorem Receive_ignored
    (sub : BitArray -> BitArray -> option BitArray)
    (or : option BitArray -> option BitArray -> option BitArray)
    (upd : BitArray -> option BitArray -> BitArray)
    (dec : Byte.byte -> list Byte.byte -> option ConsensusMsg)
    (chID : Byte.byte) (fastSync : bool) (cs : ConsensusInfo) (now : Z)
    (bz : list Byte.byte) (st : PeerState) :
  Receive sub or upd dec false chID fastSync cs now bz st = Done (st, []) /\
  Receive sub or upd dec true chID fastSync cs now [] st =
    Panicked "runtime error: index out of range" /\
  (forall t m e, DecodeMessage ConsensusMsg dec bz = Done (t, m, Some e) ->
     Receive sub or upd dec true chID fastSync cs now bz st = Done (st, [])) /\
  (bz <> [] -> chID <> StateChannel -> fastSync = true ->
     Receive sub or upd dec true chID fastSync cs now bz st = Done (st, [])) /\
  (bz <> [] -> ~ In chID [StateChannel; DataChannel; VoteChannel; VoteSetBitsChannel] ->
     Receive sub or upd dec true chID fastSync cs now bz st = Done (st, [])).
Proof.
  split; [reflexivity|]. split; [reflexivity|]. split.
  { intros t m e Hd. unfold Receive. simpl negb. cbv iota. rewrite Hd. reflexivity. }
  split.
  - intros Hbz Hch ->. unfold Receive. simpl negb. cbv iota.
    destruct (DecodeMessage ConsensusMsg dec bz) as [[[t m] [e|]]|why] eqn:Hd.
    + reflexivity.
    + rewrite (byte_eqb_neq _ _ Hch).
      destruct (Byte.eqb chID DataChannel); [reflexivity|].
      destruct (Byte.eqb chID VoteChannel); [reflexivity|].
      destruct (Byte.eqb chID VoteSetBitsChannel); reflexivity.
    + destruct bz as [|b bz]; [congruence|].
      unfold DecodeMessage in Hd. destruct (ReadBinary _ _ _ _); discriminate.
  - intros Hbz Hch. unfold Receive. simpl negb. cbv iota.
    destruct (DecodeMessage ConsensusMsg dec bz) as [[[t m] [e|]]|why] eqn:Hd.
    + reflexivity.
    + rewrite (byte_eqb_neq chID StateChannel), (byte_eqb_neq chID DataChannel),
        (byte_eqb_neq chID VoteChannel), (byte_eqb_neq chID VoteSetBitsChannel)
        by (intros ->; apply Hch; simpl; tauto).
      reflexivity.
    + destruct bz as [|b bz]; [congruence|].
      unfold DecodeMessage in Hd. destruct (ReadBinary _ _ _ _); discriminate.
Qed.

(** A [HasVoteMessage] with a vote type other than prevote or precommit,
    received on the state channel, panics in [getVoteBitArray] when the
    peer is at the message's height, and is ignored otherwise. *)
Theorem Receive_HasVote_invalid_type
    (sub : BitArray -> BitArray -> option BitArray)
    (or : option BitArray -> option BitArray -> option BitArray)
    (upd : BitArray -> option BitArray -> BitArray)
    (dec : Byte.byte -> list Byte.byte -> option ConsensusMsg)
    (fastSync : bool) (cs : ConsensusInfo) (now : Z) (bz : list Byte.byte)
    (st : PeerState) (t : Byte.byte) (h r ty : Z) (i : nat) :
  DecodeMessage ConsensusMsg dec bz = Done (t, Some (HasVoteMessage h r ty i), None) ->
  IsVoteTypeValid ty = false ->
  (Height (prs st) = h ->
     Receive sub or upd dec true StateChannel fastSync cs now bz st =
       Panicked "Invalid vote type") /\
  (Height (prs st) <> h ->
     Receive sub or upd dec true StateChannel fastSync cs now bz st = Done (st, [])).
Proof.
  intros Hd Hty. unfold Receive. simpl negb. cbv iota. rewrite Hd.
  simpl. unfold ApplyHasVoteMessage.
  split; intros Hh.
  - rewrite Hh, Z.eqb_refl. simpl. unfold setHasVote, getVoteBitArray.
    rewrite Hty. reflexivity.
  - apply Z.eqb_neq in Hh. rewrite Hh. reflexivity.
Qed.

(** A [VoteSetBitsMessage] with an invalid vote type, received while not
    fast-syncing, is dropped when it is for the local height, but for any
    other height [ApplyVoteSetBitsMessage(msg, nil)] runs and panics. *)
Theorem Receive_VoteSetBits_invalid_type
    (sub : BitArray -> BitArray -> option BitArray)
    (or : option BitArray -> option BitArray -> option BitArray)
    (upd : BitArray -> option BitArray -> BitArray)
    (dec : Byte.byte -> list Byte.byte -> option ConsensusMsg)
    (cs : ConsensusInfo) (now : Z) (bz : list Byte.byte)
    (st : PeerState) (t : Byte.byte) (h r ty : Z) (bid : list Byte.byte)
    (votes : option BitArray) :
  DecodeMessage ConsensusMsg dec bz = Done (t, Some (VoteSetBitsMessage h r ty bid votes), None) ->
  IsVoteTypeValid ty = false ->
  (cs_Height cs = h ->
     Receive sub or upd dec true VoteSetBitsChannel false cs now bz st = Done (st, [])) /\
  (cs_Height cs <> h ->
     Receive sub or upd dec true VoteSetBitsChannel false cs now bz st =
       Panicked "Invalid vote type").
Proof.
  intros Hd Hty. unfold Receive. simpl negb. cbv iota. rewrite Hd.
  simpl.
  unfold IsVoteTypeValid in Hty. split; intros Hh.
  - rewrite Hh, Z.eqb_refl, Hty. reflexivity.
  - apply Z.eqb_neq in Hh. rewrite Hh.
    unfold ApplyVoteSetBitsMessage, getVoteBitArray, IsVoteTypeValid. rewrite Hty. reflexivity.
Qed.

(** A vote for the local height and the peer's round, received on the vote
    channel while not fast-syncing, from a peer at that height that has no
    Prevotes or Precommits yet: [Receive] allocates them
    ([ensureVoteBitArrays]), marks the voter in the one chosen by the vote
    type, and queues the vote for the consensus state. *)
Theorem Receive_Vote_marks
    (sub : BitArray -> BitArray -> option BitArray)
    (or : option BitArray -> option BitArray -> option BitArray)
    (upd : BitArray -> option BitArray -> BitArray)
    (dec : Byte.byte -> list Byte.byte -> option ConsensusMsg)
    (cs : ConsensusInfo) (now : Z) (bz : list Byte.byte)
    (st : PeerState) (t : Byte.byte) (v : Vote) :
  DecodeMessage ConsensusMsg dec bz = Done (t, Some (VoteMessage v), None) ->
  vote_Height v = cs_Height cs -> Height (prs st) = cs_Height cs ->
  Round (prs st) = vote_Round v -> IsVoteTypeValid (vote_Type v) = true ->
  Prevotes (prs st) = None -> Precommits (prs st) = None ->
  Z.of_nat (vote_ValidatorIndex v) < cs_ValidatorsSize cs ->
  exists st',
    Receive sub or upd dec true VoteChannel false cs now bz st =
      Done (st', [QueuePeerMsg (VoteMessage v)]) /\
    exists l,
      (if vote_Type v =? VoteTypePrevote then Prevotes else Precommits) (prs st') = Some l /\
      GetIndex (Some l) (vote_ValidatorIndex v) (mem st') = true.
Proof.
  intros Hd Hvh Hh Hr Hty Hpv Hpc Hi.
  assert (Hn : 0 < cs_ValidatorsSize cs) by lia.
  set (s1 := ensureVoteBitArrays (cs_Height cs) (cs_ValidatorsSize cs) st).
  set (s2 := ensureVoteBitArrays (cs_Height cs - 1) (cs_LastCommitSize cs) s1).
  set (fresh_ba := mkBitArray (cs_ValidatorsSize cs)
                     (repeat false (Z.to_nat (cs_ValidatorsSize cs)))).
  assert (Hall : forall f, (f = Prevotes \/ f = Precommits) -> f (prs st) = None ->
                 exists l, pts f l fresh_ba s2).
  { intros f Hf Hnone.
    destruct (ensureVoteBitArrays_alloc_votes (cs_Height cs) (cs_ValidatorsSize cs) st f
                Hh Hn Hf Hnone) as [l Hl].
    exists l. apply ensureVoteBitArrays_pts; [|exact Hl].
    destruct Hf as [-> | ->]; simpl; tauto. }
  assert (Hhrs : same_hrs st s2).
  { eapply same_hrs_trans; apply ensureVoteBitArrays_hrs. }
  destruct Hhrs as (Hh2 & Hr2 & _).
  set (f := if vote_Type v =? VoteTypePrevote then Prevotes else Precommits).
  assert (Hf : f = Prevotes \/ f = Precommits).
  { subst f. destruct (vote_Type v =? VoteTypePrevote); tauto. }
  assert (Hnone : f (prs st) = None) by (destruct Hf as [-> | ->]; assumption).
  destruct (Hall f Hf Hnone) as [l [Hfl Hml]].
  assert (Hget : getVoteBitArray (prs s2) (vote_Height v) (vote_Round v) (vote_Type v)
                 = Done (Some l)).
  { unfold getVoteBitArray. rewrite Hty. simpl negb. cbv iota.
    rewrite Hh2, Hr2, Hh, Hr, Hvh, !Z.eqb_refl. rewrite <- Hfl. subst f.
    unfold IsVoteTypeValid in Hty. unfold vote_switch.
    destruct (vote_Type v =? VoteTypePrevote) eqn:E1; [reflexivity|].
    simpl in Hty. rewrite Hty. reflexivity. }
  exists (mkPeerState (prs s2) (SetIndex (Some l) (vote_ValidatorIndex v) (mem s2))).
  split.
  - unfold Receive. simpl negb. cbv iota. rewrite Hd. simpl.
    fold s1 s2. unfold SetHasVote, setHasVote. rewrite Hget. reflexivity.
  - exists l. split; [exact Hfl|]. simpl.
    apply (SetIndex_GetIndex l _ _ fresh_ba Hml); subst fresh_ba; simpl; [lia|].
    rewrite length_repeat_false. lia.
Qed.

Lemma getVoteBitArray_valid p h r t x :
  getVoteBitArray p h r t = Done x -> IsVoteTypeValid t = true.
Proof. unfold getVoteBitArray. destruct (IsVoteTypeValid t); [reflexivity | discriminate]. Qed.

(** [ApplyVoteSetBitsMessage] never changes the peer's round state and,
    when it returns, the vote type was valid and at most the bit-array that
    [getVoteBitArray] routes to has changed; without [ourVotes] that array
    becomes [votes.Update(msg.Votes)]. *)
Theorem ApplyVoteSetBitsMessage_local
    (sub : BitArray -> BitArray -> option BitArray)
    (or : option BitArray -> option BitArray -> option BitArray)
    (upd : BitArray -> option BitArray -> BitArray)
    (h r t : Z) (msgVotes ourVotes : option BitArray) (st st' : PeerState) :
  ApplyVoteSetBitsMessage sub or upd h r t msgVotes ourVotes st = Done st' ->
  prs st' = prs st /\ IsVoteTypeValid t = true /\
  (forall l, mem st' !! l <> mem st !! l -> getVoteBitArray (prs st) h r t = Done (Some l)) /\
  (forall l votes, ourVotes = None -> getVoteBitArray (prs st) h r t = Done (Some l) ->
     mem st !! l = Some votes -> mem st' !! l = Some (upd votes msgVotes)).
Proof.
  unfold ApplyVoteSetBitsMessage.
  destruct (getVoteBitArray (prs st) h r t) as [[l0|]|why] eqn:Hg; [| |discriminate].
  - apply getVoteBitArray_valid in Hg as Hv.
    destruct (mem st !! l0) as [votes0|] eqn:Hm.
    + intros E. injection E as <-. simpl.
      split; [reflexivity|]. split; [exact Hv|]. split.
      * intros l Hne. destruct (decide (l = l0)) as [->|Hne']; [reflexivity|].
        rewrite lookup_insert_ne in Hne by congruence. contradiction.
      * intros l votes -> E Hl. injection E as <-. rewrite Hm in Hl. injection Hl as <-.
        apply lookup_insert_eq.
    + intros E. injection E as <-. split; [reflexivity|]. split; [exact Hv|]. split.
      * intros l Hne. contradiction.
      * intros l votes _ E Hl. injection E as <-. congruence.
  - apply getVoteBitArray_valid in Hg as Hv.
    intros E. injection E as <-. split; [reflexivity|]. split; [exact Hv|]. split.
    + intros l Hne. contradiction.
    + intros l votes _ E. discriminate.
Qed.

Lemma ApplyNewRoundStepMessage_StartTime now msg st :
  0 < CompareHRS (NRS.Height msg) (NRS.Round msg) (NRS.Step msg)
                 (Height (prs st)) (Round (prs st)) (Step (prs st)) ->
  StartTime (prs (ApplyNewRoundStepMessage now msg st)) =
    now + wrap64 (wrap64 (-1 * NRS.SecondsSinceStartTime msg) * Second).
Proof.
  intros Hc. unfold ApplyNewRoundStepMessage.
  destruct (_ <=? 0) eqn:E; [apply Z.leb_le in E; lia|]. cbn zeta.
  destruct (negb _ || negb _); destruct (_ && _ && _); destruct (negb _);
  try destruct (_ && _); simpl; auto.
Qed.

(** A peer behind us that receives the messages [sendNewRoundStepMessages]
    sends ends at our (Height, Round, Step); its StartTime is its own clock
    [now] moved back by the seconds we sent, with Go's int64 duration
    arithmetic.  When we are in the commit step it also gets our block-parts
    header and a copy of our parts bit-array. *)
Theorem sendNewRoundStepMessages_sync (now : Z) (secondsSince : Z -> Z)
    (cs : ConsensusInfo) (rs : CS.RoundState) (st : PeerState) :
  0 < CompareHRS (CS.Height rs) (CS.Round rs) (CS.Step rs)
                 (Height (prs st)) (Round (prs st)) (Step (prs st)) ->
  exists st', deliver_state now cs (sendNewRoundStepMessages secondsSince rs) st = Done st' /\
    Height (prs st') = CS.Height rs /\ Round (prs st') = CS.Round rs /\
    Step (prs st') = CS.Step rs /\
    StartTime (prs st') =
      now + wrap64 (wrap64 (-1 * secondsSince (CS.StartTime rs)) * Second) /\
    (CS.Step rs = RoundStepCommit ->
     ProposalBlockPartsHeader (prs st') = CS.ProposalBlockPartsHeader rs /\
     match CS.ProposalBlockPartsBitArray rs with
     | None => ProposalBlockParts (prs st') = None
     | Some ba => exists l, pts ProposalBlockParts l ba st'
     end).
Proof.
  intros Hc.
  set (msg := NRS.mk (CS.Height rs) (CS.Round rs) (CS.Step rs)
                     (secondsSince (CS.StartTime rs)) (CS.LastCommitRound rs)).
  assert (Hc' : 0 < CompareHRS (NRS.Height msg) (NRS.Round msg) (NRS.Step msg)
                   (Height (prs st)) (Round (prs st)) (Step (prs st))) by exact Hc.
  pose proof (ApplyNewRoundStepMessage_fields now msg st Hc') as (E1 & E2 & E3).
  pose proof (ApplyNewRoundStepMessage_StartTime now msg st Hc') as E4.
  remember (ApplyNewRoundStepMessage now msg st) as s1 eqn:Hs1.
  simpl in E1, E2, E3, E4.
  unfold sendNewRoundStepMessages, makeRoundStepMessages.
  destruct (CS.Step rs =? RoundStepCommit) eqn:Ec.
  - destruct (CS.ProposalBlockPartsBitArray rs) as [ba|] eqn:Eb;
      simpl; fold msg; rewrite <- Hs1; unfold ApplyCommitStepMessage;
      rewrite E1, Z.eqb_refl; simpl.
    + eexists. split; [reflexivity|].
      split; [exact E1|]. split; [exact E2|]. split; [exact E3|]. split; [exact E4|].
      intros _. split; [reflexivity|].
      eexists. split; [reflexivity|]. apply lookup_insert_eq.
    + eexists. split; [reflexivity|].
      split; [exact E1|]. split; [exact E2|]. split; [exact E3|]. split; [exact E4|].
      intros _. split; reflexivity.
  - simpl. fold msg. rewrite <- Hs1.
    eexists. split; [reflexivity|].
    split; [exact E1|]. split; [exact E2|]. split; [exact E3|]. split; [exact E4|].
    intros Hs. apply Z.eqb_neq in Ec. contradiction.
Qed.

(** Reading [%X] output back: the position of a digit in the alphabet, and
    two digits per byte. *)
Fixpoint index_of (c : ascii) (l : list ascii) : option nat :=
  match l with
  | [] => None
  | x :: l => if Ascii.eqb c x then Some 0%nat else option_map S (index_of c l)
  end.

Definition hex_val (c : ascii) : option nat :=
  index_of c (list_ascii_of_string "0123456789ABCDEF").

Fixpoint unhex (s : string) : option (list Byte.byte) :=
  match s with
  | EmptyString => Some []
  | String a (String b s) =>
      match hex_val a, hex_val b, unhex s with
      | Some x, Some y, Some r =>
          match Byte.of_nat (x * 16 + y) with
          | Some c => Some (c :: r)
          | None => None
          end
      | _, _, _ => None
      end
  | String _ EmptyString => None
  end.

Lemma hex_val_digit n : (n < 16)%nat -> hex_val (hex_digit n) = Some n.
Proof. intros Hn. do 16 (destruct n as [|n]; [reflexivity|]). lia. Qed.

Lemma string_app2 a b r : (String a (String b EmptyString) ++ r)%string = String a (String b r).
Proof. reflexivity. Qed.

Lemma unhex_hex_upper bz : unhex (hex_upper bz) = Some bz.
Proof.
  induction bz as [|b bz IH]; [reflexivity|].
  change (hex_upper (b :: bz)) with (hex_byte b ++ hex_upper bz)%string.
  unfold hex_byte. rewrite string_app2. cbn [unhex].
  pose proof (Byte.to_nat_bounded b) as Hb.
  rewrite !hex_val_digit by (apply Nat.Div0.div_lt_upper_bound || apply Nat.mod_upper_bound; lia).
  rewrite IH.
  replace (Byte.to_nat b / 16 * 16 + Byte.to_nat b mod 16)%nat with (Byte.to_nat b)
    by (pose proof (Nat.div_mod_eq (Byte.to_nat b) 16); lia).
  rewrite Byte.of_to_nat. reflexivity.
Qed.

Lemma length_hex_upper bz : String.length (hex_upper bz) = (2 * length bz)%nat.
Proof.
  induction bz as [|b bz IH]; [reflexivity|].
  change (hex_upper (b :: bz)) with (hex_byte b ++ hex_upper bz)%string.
  unfold hex_byte. rewrite string_app2. cbn [String.length]. rewrite IH.
  cbn [length]. lia.
Qed.

(** [EventTx(tx)] is ["Tx:"] followed by two upper-case hex digits per
    byte of [tx.Hash()], which can be read back: transactions with
    different hashes get different event types. *)
Theorem EventTx_roundtrip (Hash : list Byte.byte -> list Byte.byte) (tx : list Byte.byte) :
  (exists s, EventTx Hash tx = ("Tx:" ++ s)%string /\
             unhex s = Some (Hash tx) /\ String.length s = (2 * length (Hash tx))%nat) /\
  (forall tx', EventTx Hash tx = EventTx Hash tx' -> Hash tx = Hash tx').
Proof.
  split.
  - exists (hex_upper (Hash tx)). split; [reflexivity|]. split.
    + apply unhex_hex_upper.
    + apply length_hex_upper.
  - intros tx' E. unfold EventTx in E. cbn in E.
    injection E as E. change (hex_upper (Hash tx) = hex_upper (Hash tx')) in E.
    pose proof (unhex_hex_upper (Hash tx)) as H1.
    rewrite E, unhex_hex_upper in H1. congruence.
Qed.

(** The message [EventBus.PublishEventTx] publishes for [e]. *)
Definition tx_message (Hash : list Byte.byte -> list Byte.byte) (e : EventDataTx)
    : list (string * string) * TMEventData EventDataTx :=
  ([(EventTypeKey, EventTx Hash (etx_Tx e))], mkTMEventData (InnerData e)).

Lemma flush_loop_EventBus Hash (b : EventBus EventDataTx) es :
  flush_loop EventDataTx (EventBus EventDataTx) (EventBus_PublishEventTx Hash) b es =
    (mkEventBus (option_map (fun log => log ++ map (tx_message Hash) es) (pubsub b)), es, None).
Proof.
  revert b. induction es as [|e es IH]; intros [[log|]].
  - simpl. rewrite app_nil_r. reflexivity.
  - reflexivity.
  - simpl. unfold EventBus_PublishEventTx, publish. simpl.
    rewrite IH. simpl. rewrite <- app_assoc. reflexivity.
  - simpl. unfold EventBus_PublishEventTx, publish. simpl.
    rewrite IH. reflexivity.
Qed.

(** A [TxEventBuffer] in front of an [EventBus] ([NewTxEventBuffer]):
    [Flush] never fails, publishes every buffered transaction in order on
    the bus's pubsub server, tagged [tm.events.type = EventTx(tx.Tx)] and
    wrapped in [TMEventData] (nothing when the bus has a nil pubsub), and
    empties the buffer. *)
Theorem Flush_EventBus (Hash : list Byte.byte -> list Byte.byte)
    (b : TxEventBuffer EventDataTx (EventBus EventDataTx)) :
  Flush EventDataTx (EventBus EventDataTx) (EventBus_PublishEventTx Hash) b =
    (mkTxEventBuffer EventDataTx (EventBus EventDataTx)
       (mkEventBus (option_map (fun log => log ++ map (tx_message Hash) (events _ _ b))
                               (pubsub (next _ _ b)))) [],
     events _ _ b, None).
Proof. unfold Flush. rewrite flush_loop_EventBus. reflexivity. Qed.

(** [Unwrap] strips every [TMEventData] wrapper, one level as well as
    many, while [Empty] only looks at the outer value: a wrapped nil is not
    [Empty] though it unwraps to nil. *)
Theorem Unwrap_strips {P : Type} (tmr : TMEventData P) :
  (forall w, Unwrap tmr <> InnerWrapped w) /\
  Unwrap (mkTMEventData (InnerWrapped (TMEventDataInner_ tmr))) = Unwrap tmr /\
  Empty (mkTMEventData (InnerWrapped (TMEventDataInner_ tmr))) = false /\
  (Empty tmr = true -> Unwrap tmr = InnerNil).
Proof.
  split; [|split; [reflexivity | split; [reflexivity|]]].
  - destruct tmr as [i]. unfold Unwrap. simpl.
    induction i as [|d|w IH]; simpl; [discriminate | discriminate | exact IH].
  - destruct tmr as [[|d|w]]; unfold Empty; simpl; [reflexivity | discriminate | discriminate].
Qed.

Lemma wait_loop_default h statuses n sleeps :
  0 <= h < 2 ^ 63 -> int64_heights statuses = true ->
  wait_loop DefaultWaitStrategy h statuses = Some (n, sleeps, None) ->
  exists prefix last rest,
    statuses = map inr prefix ++ inr last :: rest /\ n = S (length prefix) /\
    h <= last /\ Forall (fun l => 0 < h - l <= 10) prefix /\
    sleeps = map (fun l => (h - l - 1) * 1000 + 500) prefix ++ [0].
Proof.
  intros Hh. revert n sleeps. induction statuses as [|[err|latest] rest IH]; intros n sleeps.
  - discriminate.
  - discriminate.
  - cbn [wait_loop int64_heights forallb]. intros Hb Hr.
    apply andb_prop in Hb as [Hl Hb]. apply andb_prop in Hl as [Hl0 Hl1].
    apply Z.leb_le in Hl0. apply Z.ltb_lt in Hl1.
    rewrite (wrap64_id (h - latest)) in Hr by lia.
    destruct (DefaultWaitStrategy (h - latest)) as [slept [err|]] eqn:Ew; [discriminate|].
    assert (E10 : h - latest <= 10).
    { unfold DefaultWaitStrategy in Ew.
      destruct (10 <? h - latest) eqn:E; [discriminate | apply Z.ltb_ge in E; lia]. }
    assert (Es : slept = if 0 <? h - latest then (h - latest - 1) * 1000 + 500 else 0).
    { unfold DefaultWaitStrategy in Ew.
      destruct (10 <? h - latest); [discriminate|].
      destruct (0 <? h - latest); congruence. }
    destruct (0 <? h - latest) eqn:E0.
    + destruct (wait_loop DefaultWaitStrategy h rest) as [[[n' s'] [e|]]|] eqn:Hw;
        try discriminate.
      injection Hr as <- <-.
      destruct (IH n' s' Hb eq_refl) as (prefix & last & rest' & -> & -> & Hle & Hall & ->).
      exists (latest :: prefix), last, rest'. split; [reflexivity|]. split; [reflexivity|].
      split; [exact Hle|]. split.
      * constructor; [|exact Hall]. apply Z.ltb_lt in E0. lia.
      * rewrite Es. reflexivity.
    + injection Hr as <- <-. exists [], latest, rest.
      apply Z.ltb_ge in E0. subst slept. repeat split; try reflexivity; try lia. constructor.
Qed.

(** [WaitForHeight] with the default strategy: when it returns nil, the
    [Status] answers it read were all successful, every one but the last
    was 1 to 10 blocks short of [h] and made it sleep half a second plus a
    second per missing block after the first, and the last reached [h];
    an answer more than 10 blocks short aborts at once. *)
Theorem WaitForHeight_default (statuses : list (string + Z)) (h : Z) :
  0 <= h < 2 ^ 63 -> int64_heights statuses = true ->
  (forall n sleeps, WaitForHeight statuses h None = Some (n, sleeps, None) ->
   exists prefix last rest,
     statuses = map inr prefix ++ inr last :: rest /\ n = S (length prefix) /\
     h <= last /\ Forall (fun l => 0 < h - l <= 10) prefix /\
     sleeps = map (fun l => (h - l - 1) * 1000 + 500) prefix ++ [0]) /\
  (forall latest rest, statuses = inr latest :: rest -> 10 < h - latest ->
   WaitForHeight statuses h None =
     Some (1%nat, [0], Some ("Waiting for " ++ NilZero.string_of_int (Z.to_int (h - latest))
                             ++ " blocks... aborting")%string)).
Proof.
  intros Hh Hb. split.
  - intros n sleeps. apply wait_loop_default; assumption.
  - intros latest rest -> H10. unfold WaitForHeight. simpl.
    cbn [int64_heights forallb] in Hb.
    apply andb_prop in Hb as [Hl _]. apply andb_prop in Hl as [Hl0 Hl1].
    apply Z.leb_le in Hl0. apply Z.ltb_lt in Hl1.
    rewrite (wrap64_id (h - latest)) by lia. unfold DefaultWaitStrategy.
    apply Z.ltb_lt in H10. rewrite H10. reflexivity.
Qed.

(** [WaitForOneEvent] subscribes first with the query
    [tm.events.type=<evtTyp>], always cancels its context last, unsubscribes
    exactly when the subscription succeeded, succeeds exactly when an event
    arrived before the timeout, and returns an empty [TMEventData] on
    error. *)
Theorem WaitForOneEvent_cleanup {P : Type} (subscribe : option string)
    (sel : option (TMEventData P)) (evtTyp : string) :
  let '(eff, evt, err) := WaitForOneEvent subscribe sel evtTyp in
  (exists mid, eff = CSubscribe (EventTypeKey ++ "=" ++ evtTyp)%string :: mid ++ [CCancel]) /\
  (In CUnsubscribeAll eff <-> subscribe = None) /\
  (err = None <-> subscribe = None /\ sel <> None) /\
  (err <> None -> Empty evt = true) /\
  (err = None -> sel = Some evt).
Proof.
  unfold WaitForOneEvent.
  destruct subscribe as [e|]; [|destruct sel as [evt|]]; simpl.
  - split; [exists []; reflexivity|].
    split; [split; [intros [H|[H|H]]; discriminate || contradiction | discriminate]|].
    split; [split; [discriminate | intros [H _]; discriminate]|].
    split; [intros _; reflexivity | discriminate].
  - split; [exists [CUnsubscribeAll]; reflexivity|].
    split; [split; [reflexivity | intros _; right; left; reflexivity]|].
    split; [split; [intros _; split; [reflexivity | discriminate] | reflexivity]|].
    split; [intros H; contradiction | reflexivity].
  - split; [exists [CUnsubscribeAll]; reflexivity|].
    split; [split; [reflexivity | intros _; right; left; reflexivity]|].
    split; [split; [discriminate | intros [_ H]; contradiction]|].
    split; [intros _; reflexivity | discriminate].
Qed.

(** [BroadcastTxCommit] returns no result exactly when subscribing or
    [CheckTx] failed; once subscribed it always unsubscribes last (the
    deferred [Unsubscribe]); it starts the commit timer exactly when
    [CheckTx] accepted the transaction; and a result always carries the
    transaction hash and the [CheckTx] response. *)
Theorem BroadcastTxCommit_contract (env : Env) (txHash : list Byte.byte) :
  let '(eff, res, err) := BroadcastTxCommit env txHash in
  (res = None <-> env_Subscribe env subscribeTimeoutMs <> None \/
                  exists e, env_CheckTx env = inl e) /\
  (env_Subscribe env subscribeTimeoutMs = None -> exists pre, eff = pre ++ [EffUnsubscribe]) /\
  (In (EffStartTimer commitTimeoutMs) eff <->
     env_Subscribe env subscribeTimeoutMs = None /\
     exists r, env_CheckTx env = inr r /\ res_Code r = CodeType_OK) /\
  (forall r, res = Some r -> TxHash r = txHash /\ env_CheckTx env = inr (CheckTx r)).
Proof.
  unfold BroadcastTxCommit.
  destruct (env_Subscribe env subscribeTimeoutMs) as [e|] eqn:Es.
  - split; [split; [intros _; left; discriminate | reflexivity]|].
    split; [discriminate|]. split; [|discriminate].
    split; [intros [H|H]; [discriminate | contradiction] | intros [H _]; discriminate].
  - destruct (env_CheckTx env) as [e|r] eqn:Ec.
    + split; [split; [intros _; right; exists e; reflexivity | reflexivity]|].
      split; [intros _; exists [EffSubscribe subscribeTimeoutMs; EffCheckTx]; reflexivity|].
      split; [|discriminate].
      split; [intros [H|[H|[H|H]]]; discriminate || contradiction
             | intros [_ [r [H _]]]; discriminate].
    + destruct (res_Code r =? CodeType_OK) eqn:Eok; simpl negb; cbv iota.
      * destruct (env_Select env commitTimeoutMs) as [ev|].
        -- split; [split; [discriminate | intros [H|[e' H]]; [congruence | discriminate]]|].
           split; [intros _; exists [EffSubscribe subscribeTimeoutMs; EffCheckTx; EffStartTimer commitTimeoutMs]; reflexivity|].
           split; [split; [intros _; split; [reflexivity | exists r; split; [reflexivity | apply Z.eqb_eq; exact Eok]]
                          | intros _; simpl; tauto]|].
           intros r' E. injection E as <-. split; reflexivity.
        -- split; [split; [discriminate | intros [H|[e' H]]; [congruence | discriminate]]|].
           split; [intros _; exists [EffSubscribe subscribeTimeoutMs; EffCheckTx; EffStartTimer commitTimeoutMs]; reflexivity|].
           split; [split; [intros _; split; [reflexivity | exists r; split; [reflexivity | apply Z.eqb_eq; exact Eok]]
                          | intros _; simpl; tauto]|].
           intros r' E. injection E as <-. split; reflexivity.
      * split; [split; [discriminate | intros [H|[e' H]]; [congruence | discriminate]]|].
        split; [intros _; exists [EffSubscribe subscribeTimeoutMs; EffCheckTx]; reflexivity|].
        split.
        -- split; [intros [H|[H|[H|H]]]; discriminate || contradiction|].
           intros [_ [r' [H Hc]]]. injection H as <-. apply Z.eqb_neq in Eok. contradiction.
        -- intros r' E. injection E as <-. split; reflexivity.
Qed.

(** A mempool [CheckTx] error is reported the same way by all three
    broadcast endpoints, with no result; on success [BroadcastTxAsync]
    reports code 0 whatever [CheckTx] answered, [BroadcastTxSync] forwards
    the [CheckTx] code, data and log. *)
Theorem broadcast_CheckTx_error (env : Env) (txHash : list Byte.byte) :
  (forall err, env_Subscribe env subscribeTimeoutMs = None -> env_CheckTx env = inl err ->
   let msg := Some ("Error broadcasting transaction: " ++ err)%string in
   BroadcastTxAsync (env_CheckTx env) txHash = (None, msg) /\
   BroadcastTxSync (env_CheckTx env) txHash = (None, msg) /\
   (let '(_, res, e) := BroadcastTxCommit env txHash in res = None /\ e = msg)) /\
  (forall r, env_CheckTx env = inr r ->
   BroadcastTxAsync (env_CheckTx env) txHash = (Some (mkResultBroadcastTx 0 [] "" txHash), None) /\
   BroadcastTxSync (env_CheckTx env) txHash =
     (Some (mkResultBroadcastTx (res_Code r) (res_Data r) (res_Log r) txHash), None)).
Proof.
  split.
  - intros err Hs Hc. cbv zeta. unfold BroadcastTxCommit. rewrite Hs, Hc.
    split; [reflexivity|]. split; [reflexivity|]. split; reflexivity.
  - intros r Hc. rewrite Hc. split; reflexivity.
Qed.

(* ------------------------------------------------------------------ *)
(** ** Concrete runs of the properties above *)

(** A peer at (11, 0, NewHeight) holding the commit of round 3 at height 10. *)
Definition peer_lastcommit : PeerState :=
  mkPeerState (mkPRS 11 0 RoundStepNewHeight 0 false EmptyPartSetHeader None (-1) None
                     None None 3 (Some 1%positive) (-1) None)
              {[1%positive := clear4]}.

(** A peer at (10, 1, Precommit) holding a catch-up commit for round 3. *)
Definition peer_catchup : PeerState :=
  mkPeerState (mkPRS 10 1 RoundStepPrecommit 0 false EmptyPartSetHeader None (-1) None
                     None None (-1) None 3 (Some 1%positive))
              {[1%positive := B3]}.

(** Four validators, all of whose prevotes at (10, 2) we hold. *)
Definition prevotes_10_2 : VoteSetReader :=
  mkVoteSetReader 10 2 VoteTypePrevote 4 false (mkBitArray 4 [true; true; true; true])
                  (fun i => Some (mkVote 10 2 VoteTypePrevote i)).

Definition sub_keep (a _ : BitArray) : option BitArray := Some a.
Definition or_right (_ b : option BitArray) : option BitArray := b.
Definition update_with (a : BitArray) (b : option BitArray) : BitArray := default a b.

(** A local node at height 10 with four validators and no block IDs. *)
Definition cs_10 : ConsensusInfo := mkConsensusInfo 10 4 4 (fun _ _ _ => None).

Lemma SetHasProposal_sets_witness :
  Height (prs (peer_at 10 2 RoundStepPropose)) = 10 /\
  Round (prs (peer_at 10 2 RoundStepPropose)) = 2 /\
  Proposal (prs (peer_at 10 2 RoundStepPropose)) = false /\
  Proposal (prs (SetHasProposal 10 2 (mkPartSetHeader 3 []) (-1)
                                (peer_at 10 2 RoundStepPropose))) = true.
Proof.
  split; [reflexivity|]. split; [reflexivity|]. split; [reflexivity|].
  exact (proj1 (SetHasProposal_sets (peer_at 10 2 RoundStepPropose) 10 2
                  (mkPartSetHeader 3 []) (-1) eq_refl eq_refl eq_refl)).
Defined.

Lemma SetHasProposalBlockPart_after_proposal_witness :
  Z.of_nat 1 < Total (mkPartSetHeader 3 []) /\
  GetIndex (ProposalBlockParts (prs (SetHasProposalBlockPart 10 2 1
              (SetHasProposal 10 2 (mkPartSetHeader 3 []) (-1) (peer_at 10 2 RoundStepPropose)))))
           1 (mem (SetHasProposalBlockPart 10 2 1
              (SetHasProposal 10 2 (mkPartSetHeader 3 []) (-1) (peer_at 10 2 RoundStepPropose))))
  = true.
Proof.
  split; [simpl; lia|].
  exact (SetHasProposalBlockPart_after_proposal (peer_at 10 2 RoundStepPropose) 10 2
           (mkPartSetHeader 3 []) (-1) 1 eq_refl eq_refl eq_refl ltac:(simpl; lia)).
Defined.

Lemma ApplyHasVoteMessage_previous_height_witness :
  Height (prs peer_lastcommit) = 10 + 1 /\ LastCommitRound (prs peer_lastcommit) = 3 /\
  ApplyHasVoteMessage 10 3 VoteTypePrecommit 2 peer_lastcommit = Done peer_lastcommit.
Proof.
  split; [reflexivity|]. split; [reflexivity|].
  exact (proj1 (ApplyHasVoteMessage_previous_height peer_lastcommit 10 3 2 eq_refl eq_refl)).
Defined.

Lemma ApplyNewRoundStepMessage_catchup_witness :
  Round (prs peer_catchup) < 3 /\
  Precommits (prs (ApplyNewRoundStepMessage 100 (NRS.mk 10 3 RoundStepPropose 5 0)
                                            peer_catchup)) = Some 1%positive.
Proof.
  split; [vm_compute; reflexivity|].
  exact (proj1 (ApplyNewRoundStepMessage_catchup 100 (NRS.mk 10 3 RoundStepPropose 5 0)
                  peer_catchup eq_refl ltac:(vm_compute; reflexivity) eq_refl)).
Defined.

Lemma ApplyNewRoundStepMessage_step_only_witness :
  Step (prs (peer_at 10 2 RoundStepPropose)) < RoundStepPrevote /\
  ApplyNewRoundStepMessage 50000000000 (NRS.mk 10 2 RoundStepPrevote 3 (-1))
    (peer_at 10 2 RoundStepPropose) =
    with_prs (peer_at 10 2 RoundStepPropose)
             (set_StartTime (set_Step (prs (peer_at 10 2 RoundStepPropose)) RoundStepPrevote)
                            47000000000) /\
  StartTime (prs (ApplyNewRoundStepMessage 50000000000 (NRS.mk 10 2 RoundStepPrevote 3 (-1))
                    (peer_at 10 2 RoundStepPropose))) = 47000000000.
Proof.
  split; [vm_compute; reflexivity|].
  destruct (ApplyNewRoundStepMessage_step_only 50000000000 (NRS.mk 10 2 RoundStepPrevote 3 (-1))
              (peer_at 10 2 RoundStepPropose) eq_refl eq_refl ltac:(vm_compute; reflexivity))
    as [Heq Hst].
  split.
  - etransitivity; [exact Heq | vm_compute; reflexivity].
  - etransitivity; [exact (Hst ltac:(vm_compute; reflexivity)) | vm_compute; reflexivity].
Defined.

Lemma PickVoteToSend_sent_witness :
  exists v st',
    PickVoteToSend (fun _ _ => Some 1%nat) prevotes_10_2 (peer_at 10 2 RoundStepPrevote)
      = Done (v, true, st') /\
    exists index l, v = vs_GetByIndex prevotes_10_2 index /\
      getVoteBitArray (prs st') 10 2 VoteTypePrevote = Done (Some l).
Proof.
  generalize (PickVoteToSend_sent (fun _ _ => Some 1%nat) prevotes_10_2
                (peer_at 10 2 RoundStepPrevote)).
  destruct (PickVoteToSend (fun _ _ => Some 1%nat) prevotes_10_2
              (peer_at 10 2 RoundStepPrevote)) as [[[v [|]] st']|why] eqn:E; intros T.
  - exists v, st'. split; [reflexivity|].
    destruct (T v st' eq_refl) as (index & l & Hv & Hg & _).
    exists index, l. split; assumption.
  - vm_compute in E. discriminate E.
  - vm_compute in E. discriminate E.
Defined.

Lemma PickVoteToSend_not_sent_witness :
  exists st',
    PickVoteToSend (fun _ _ => None) prevotes_10_2 (peer_at 10 2 RoundStepPrevote)
      = Done (None, false, st') /\
    st' = ensureVoteBitArrays 10 4 (peer_at 10 2 RoundStepPrevote).
Proof.
  generalize (PickVoteToSend_not_sent (fun _ _ => None) prevotes_10_2
                (peer_at 10 2 RoundStepPrevote)).
  destruct (PickVoteToSend (fun _ _ => None) prevotes_10_2
              (peer_at 10 2 RoundStepPrevote)) as [[[v [|]] st']|why] eqn:E; intros T.
  - vm_compute in E. discriminate E.
  - destruct (T v st' ltac:(discriminate) eq_refl) as [-> Hs].
    exists st'. split; [reflexivity | exact Hs].
  - vm_compute in E. discriminate E.
Defined.

Lemma Receive_HasVote_invalid_type_witness :
  DecodeMessage ConsensusMsg (fun _ _ => Some (HasVoteMessage 10 2 7 0)) [msgTypeHasVote] =
    Done (msgTypeHasVote, Some (HasVoteMessage 10 2 7 0), None) /\
  IsVoteTypeValid 7 = false /\
  Receive sub_keep or_right update_with (fun _ _ => Some (HasVoteMessage 10 2 7 0))
          true StateChannel false cs_10 0 [msgTypeHasVote] (peer_at 10 2 RoundStepPrevote) =
    Panicked "Invalid vote type".
Proof.
  split; [reflexivity|]. split; [reflexivity|].
  exact (proj1 (Receive_HasVote_invalid_type sub_keep or_right update_with
                  (fun _ _ => Some (HasVoteMessage 10 2 7 0)) false cs_10 0 [msgTypeHasVote]
                  (peer_at 10 2 RoundStepPrevote) msgTypeHasVote 10 2 7 0
                  eq_refl eq_refl) eq_refl).
Defined.

Lemma Receive_VoteSetBits_invalid_type_witness :
  DecodeMessage ConsensusMsg (fun _ _ => Some (VoteSetBitsMessage 9 0 7 [] None))
                [msgTypeVoteSetBits] =
    Done (msgTypeVoteSetBits, Some (VoteSetBitsMessage 9 0 7 [] None), None) /\
  cs_Height cs_10 <> 9 /\
  Receive sub_keep or_right update_with (fun _ _ => Some (VoteSetBitsMessage 9 0 7 [] None))
          true VoteSetBitsChannel false cs_10 0 [msgTypeVoteSetBits]
          (peer_at 10 2 RoundStepPrevote) =
    Panicked "Invalid vote type".
Proof.
  split; [reflexivity|]. split; [discriminate|].
  exact (proj2 (Receive_VoteSetBits_invalid_type sub_keep or_right update_with
                  (fun _ _ => Some (VoteSetBitsMessage 9 0 7 [] None)) cs_10 0
                  [msgTypeVoteSetBits] (peer_at 10 2 RoundStepPrevote) msgTypeVoteSetBits
                  9 0 7 [] None eq_refl eq_refl) ltac:(discriminate)).
Defined.

Lemma Receive_Vote_marks_witness :
  exists st',
    Receive sub_keep or_right update_with
            (fun _ _ => Some (VoteMessage (mkVote 10 2 VoteTypePrevote 1)))
            true VoteChannel false cs_10 0 [msgTypeVote] (peer_at 10 2 RoundStepPrevote) =
      Done (st', [QueuePeerMsg (VoteMessage (mkVote 10 2 VoteTypePrevote 1))]) /\
    exists l, Prevotes (prs st') = Some l /\ GetIndex (Some l) 1 (mem st') = true.
Proof.
  exact (Receive_Vote_marks sub_keep or_right update_with
           (fun _ _ => Some (VoteMessage (mkVote 10 2 VoteTypePrevote 1))) cs_10 0
           [msgTypeVote] (peer_at 10 2 RoundStepPrevote) msgTypeVote
           (mkVote 10 2 VoteTypePrevote 1) eq_refl eq_refl eq_refl eq_refl eq_refl
           eq_refl eq_refl ltac:(vm_compute; reflexivity)).
Defined.

Lemma ApplyVoteSetBitsMessage_local_witness :
  exists st',
    ApplyVoteSetBitsMessage sub_keep or_right update_with 10 2 VoteTypePrecommit
      (Some clear4) None (peer_with_precommits 10 2) = Done st' /\
    prs st' = prs (peer_with_precommits 10 2) /\
    mem st' !! 1%positive = Some clear4.
Proof.
  generalize (ApplyVoteSetBitsMessage_local sub_keep or_right update_with 10 2
                VoteTypePrecommit (Some clear4) None (peer_with_precommits 10 2)).
  destruct (ApplyVoteSetBitsMessage sub_keep or_right update_with 10 2 VoteTypePrecommit
              (Some clear4) None (peer_with_precommits 10 2)) as [st'|why] eqn:E; intros T.
  - destruct (T st' eq_refl) as (Hp & _ & _ & Hu).
    exists st'. split; [reflexivity|]. split; [exact Hp|].
    exact (Hu 1%positive B3 eq_refl eq_refl eq_refl).
  - vm_compute in E. discriminate E.
Defined.

Lemma sendNewRoundStepMessages_sync_witness :
  let rs := CS.mk 10 2 RoundStepCommit 40000000000 1 (mkPartSetHeader 3 []) (Some B3) in
  0 < CompareHRS 10 2 RoundStepCommit 9 0 RoundStepNewHeight /\
  exists st', deliver_state 100000000000 cs_10 (sendNewRoundStepMessages (fun _ => 60) rs)
                (peer_at 9 0 RoundStepNewHeight) = Done st' /\
    Height (prs st') = 10 /\ StartTime (prs st') = 40000000000.
Proof.
  cbv zeta. split; [vm_compute; reflexivity|].
  destruct (sendNewRoundStepMessages_sync 100000000000 (fun _ => 60) cs_10
              (CS.mk 10 2 RoundStepCommit 40000000000 1 (mkPartSetHeader 3 []) (Some B3))
              (peer_at 9 0 RoundStepNewHeight) ltac:(vm_compute; reflexivity))
    as (st' & E & Hh & _ & _ & Ht & _).
  exists st'. split; [exact E|]. split; [exact Hh|].
  etransitivity; [exact Ht | vm_compute; reflexivity].
Defined.

Lemma WaitForHeight_default_witness :
  0 <= 10 < 2 ^ 63 /\ int64_heights [inr 7; inr 9; inr 10; inl "unused"%string] = true /\
  WaitForHeight [inr 7; inr 9; inr 10; inl "unused"%string] 10 None =
    Some (3%nat, [2500; 500; 0], None) /\
  exists prefix last rest,
    [inr 7; inr 9; inr 10; inl "unused"%string] = map inr prefix ++ inr last :: rest /\
    (3 = S (length prefix))%nat /\ 10 <= last.
Proof.
  split; [lia|]. split; [reflexivity|]. split; [reflexivity|].
  destruct (proj1 (WaitForHeight_default [inr 7; inr 9; inr 10; inl "unused"%string] 10
                     ltac:(lia) eq_refl)
              3%nat [2500; 500; 0] eq_refl)
    as (prefix & last & rest & Hs & Hn & Hle & _).
  exists prefix, last, rest. split; [exact Hs|]. split; [exact Hn | exact Hle].
Defined.
